(** * ReceiptManager: the receipt text extractors of [ai/process_receipt.py]

    A shallow embedding of [ReceiptProcessor] and of the parts of the Python
    standard library it calls ([str] methods, [float], [int], [re],
    [datetime.strptime] / [strftime]), followed by the properties of the
    extraction pipeline.

    Conventions of the embedding.
    - A Python [str] is a list of characters; a character is its code point,
      restricted to U+0000..U+00FF and held in an [ascii].  Of the currency
      class of the source patterns, [$], U+00E2, U+201A, U+00AC, U+00C2 and
      U+0141, the two code points above U+00FF can never occur in such a
      text and are left out of the class.
    - A Python exception is a value of [exn]; a computation that may raise
      returns a [result].
    - A Python [float] obtained from a decimal literal is represented by the
      rational number the literal denotes.
    - [cv2], [pytesseract] and the system clock are parameters.
    - Two behaviours of the interpreter differ between releases, and the
      release is a parameter ([python]): whether a global inline flag in
      the middle of a pattern is rejected by [re] (Python 3.11 and later)
      or accepted and applied to the whole pattern (earlier releases), and
      the limit on the number of digits [int] converts. *)

From Stdlib Require Import String Ascii DecimalString ZArith QArith Lia Bool Arith List.
Import ListNotations.

Close Scope Q_scope.

(* ===================================================================== *)
(** * Python values, exceptions and [str] methods *)
(* ===================================================================== *)

Module Py.

Definition str := list ascii.

Definition lit (s : string) : str := list_ascii_of_string s.

Arguments lit s%_string.

(** The exception classes this program can meet, all subclasses of
    [Exception]: [RuntimeError] with its message, [ValueError] with the
    text that did not convert, [AttributeError] (a method of [None]),
    [UnboundLocalError] with the name of the variable, and [re.error]
    with its [msg].  [str(e)] is represented by the exception itself. *)
Inductive exn :=
| RuntimeError (msg : str)
| ValueError (arg : str)
| AttributeError
| UnboundLocalError (var : str)
| ReError (msg : str).

Inductive result (A : Type) :=
| Ok (a : A)
| Raise (e : exn).

Arguments Ok {A} a.
Arguments Raise {A} e.

Definition bind {A B} (c : result A) (f : A -> result B) : result B :=
  match c with
  | Ok a => f a
  | Raise e => Raise e
  end.

(** [try: c  except ValueError: h] *)
Definition except_ValueError {A} (c : result A) (h : result A) : result A :=
  match c with
  | Raise (ValueError _) => h
  | other => other
  end.

(** [try: c  except Exception as e: h e] *)
Definition except_Exception {A} (c : result A) (h : exn -> result A)
  : result A :=
  match c with
  | Ok a => Ok a
  | Raise e => h e
  end.

(** The releases of the interpreter, by the two behaviours that differ
    between them: the limit of 4300 digits on what [int] converts (from
    3.11 on, and in the later patch releases of 3.7 to 3.10), and the
    rejection by [re] of a global inline flag that is not at the start of
    the pattern (from 3.11 on). *)
Inductive python :=
| Py3_6        (* no limit, flag accepted *)
| Py3_10_7     (* limit, flag accepted *)
| Py3_11.      (* limit, flag rejected *)

Definition inline_flag_error (py : python) : bool :=
  match py with
  | Py3_11 => true
  | _ => false
  end.

Definition int_max_str_digits (py : python) : option nat :=
  match py with
  | Py3_6 => None
  | _ => Some 4300
  end.

(** ** Characters *)

Definition ord (c : ascii) : N := N_of_ascii c.

Definition between (lo hi : N) (c : ascii) : bool :=
  ((lo <=? ord c) && (ord c <=? hi))%N.

(** [c.isspace()], also the class [\s] of [re] on [str] patterns. *)
Definition isspace (c : ascii) : bool :=
  between 9 13 c || between 28 32 c
  || (ord c =? 133)%N || (ord c =? 160)%N.

(** The whitespace [float] and [int] ignore around a number. *)
Definition isspace_num (c : ascii) : bool :=
  between 9 13 c || (ord c =? 32)%N
  || (ord c =? 133)%N || (ord c =? 160)%N.

(** [\d] *)
Definition isdigit (c : ascii) : bool := between 48 57 c.

(** [\w]: alphanumeric or underscore. *)
Definition isword (c : ascii) : bool :=
  isdigit c || between 65 90 c || between 97 122 c || (ord c =? 95)%N
  || (ord c =? 170)%N || (ord c =? 178)%N || (ord c =? 179)%N
  || (ord c =? 181)%N || (ord c =? 185)%N || (ord c =? 186)%N
  || between 188 190 c || between 192 214 c || between 216 246 c
  || between 248 255 c.

Definition lower_chr (c : ascii) : ascii :=
  if between 65 90 c || between 192 214 c || between 216 222 c
  then ascii_of_N (ord c + 32) else c.

(** Upper case, for the characters whose upper case is again below
    U+0100. *)
Definition upper_chr (c : ascii) : ascii :=
  if between 97 122 c || between 224 246 c || between 248 254 c
  then ascii_of_N (ord c - 32) else c.

(** ** [str] methods *)

Definition lower (s : str) : str := map lower_chr s.

(** [s.capitalize()] *)
Definition capitalize (s : str) : str :=
  match s with
  | [] => []
  | c :: t => upper_chr c :: lower t
  end.

Fixpoint drop_while (p : ascii -> bool) (s : str) : str :=
  match s with
  | c :: t => if p c then drop_while p t else s
  | [] => []
  end.

Definition strip_with (p : ascii -> bool) (s : str) : str :=
  rev (drop_while p (rev (drop_while p s))).

(** [s.strip()] *)
Definition strip (s : str) : str := strip_with isspace s.

Fixpoint startswith (s p : str) {struct p} : bool :=
  match p, s with
  | [], _ => true
  | a :: p', b :: s' => Ascii.eqb a b && startswith s' p'
  | _ :: _, [] => false
  end.

(** [p in s] for a string [p] *)
Fixpoint contains (s p : str) : bool :=
  startswith s p ||
  match s with
  | [] => false
  | _ :: t => contains t p
  end.

(** What [p in s] decides: [p] occurs in [s]. *)
Definition occurs_in (p s : str) : Prop :=
  exists pre post, s = pre ++ p ++ post.

(** [c in s] for a one-character string [c] *)
Definition contains_chr (s : str) (c : ascii) : bool :=
  existsb (Ascii.eqb c) s.

(** [s.replace(c, '')] for a one-character string [c] *)
Definition remove_chr (c : ascii) (s : str) : str :=
  filter (fun x => negb (Ascii.eqb c x)) s.

(** [c.join(l)] for a one-character separator [c] *)
Fixpoint join (c : ascii) (l : list str) : str :=
  match l with
  | [] => []
  | [s] => s
  | s :: t => s ++ c :: join c t
  end.

(** No whitespace at either end, as [strip] leaves a string. *)
Definition trimmed (s : str) : Prop :=
  (forall c t, s = c :: t -> isspace c = false) /\
  (forall c t, s = t ++ [c] -> isspace c = false).

(** A text of more than two characters without whitespace at either
    end. *)
Definition solid (w : str) : bool :=
  match w, rev w with
  | c :: _, l :: _ => negb (isspace c) && negb (isspace l) && (2 <? length w)
  | _, _ => false
  end.

(** [s.split(c)] for a one-character separator [c] *)
Fixpoint split (c : ascii) (s : str) : list str :=
  match s with
  | [] => [[]]
  | x :: t =>
      if Ascii.eqb c x then [] :: split c t
      else match split c t with
           | [] => [[x]]
           | w :: ws => (x :: w) :: ws
           end
  end.

(** ** Number conversions *)

Definition digit_val (c : ascii) : Z := (Z.of_N (ord c) - 48)%Z.

Definition digits_val (s : str) : Z :=
  fold_left (fun acc c => (10 * acc + digit_val c)%Z) s 0%Z.

Definition all_digits (s : str) : bool := forallb isdigit s.

Definition num_strip (s : str) : str := strip_with isspace_num s.

Definition split_sign (s : str) : bool * str :=
  match s with
  | c :: t =>
      if Ascii.eqb c "-" then (true, t)
      else if Ascii.eqb c "+" then (false, t)
      else (false, s)
  | [] => (false, [])
  end.

Definition not_minus (c : ascii) : bool := negb (Ascii.eqb c "-").

Definition not_digit (c : ascii) : bool := negb (isdigit c).

Definition no_separator (c : ascii) : bool :=
  negb (Ascii.eqb c "/") && negb (Ascii.eqb c "-").

(** [int(s)] on the decimal spellings (sign, digits); the spellings with
    underscores are outside the embedding. *)
Definition int (py : python) (s : str) : result Z :=
  let (neg, body) := split_sign (num_strip s) in
  if negb (all_digits body) || (length body =? 0) then Raise (ValueError s)
  else
    match int_max_str_digits py with
    | Some n => if n <? length body then Raise (ValueError s)
                else Ok (if neg then - digits_val body else digits_val body)%Z
    | None => Ok (if neg then - digits_val body else digits_val body)%Z
    end.

Fixpoint span_digits (s : str) : str * str :=
  match s with
  | c :: t => if isdigit c
              then let (d, r) := span_digits t in (c :: d, r)
              else ([], s)
  | [] => ([], [])
  end.

(** [float(s)] on the spellings [sign digits . digits]; the spellings
    with an exponent or underscores and the words [inf] and [nan] are
    outside the embedding (no text this program converts has a letter or
    an underscore next to a digit).  The value is the rational the
    spelling denotes; the double it is rounded to has the same sign. *)
Definition float (s : str) : result Q :=
  let (neg, body) := split_sign (num_strip s) in
  let (ip, r) := span_digits body in
  let (fp, ok) :=
    match r with
    | [] => ([], true)
    | "."%char :: f => (f, all_digits f)
    | _ => ([], false)
    end in
  if negb ok || (length ip + length fp =? 0) then Raise (ValueError s)
  else
    let mant := digits_val (ip ++ fp) in
    Ok (Qmake (if neg then - mant else mant)%Z
              (Z.to_pos (10 ^ Z.of_nat (length fp))%Z)).

Arguments float : simpl never.
Arguments int : simpl never.
Arguments strip : simpl never.

End Py.

(* ===================================================================== *)
(** * The [re] module: a backtracking matcher with capture groups *)
(* ===================================================================== *)

Module Re.
Import Py.

(** [re.IGNORECASE] and [re.MULTILINE] *)
Record flags := {
  ignorecase : bool;
  multiline : bool
}.

Definition no_flags : flags := {| ignorecase := false; multiline := false |}.
Definition IGNORECASE : flags := {| ignorecase := true; multiline := false |}.
Definition MULTILINE : flags := {| ignorecase := false; multiline := true |}.

(** Character sets: a literal, a range [lo-hi], [\d], [\s], [.] and the
    union written by juxtaposition inside brackets. *)
Inductive cls :=
| CChar (c : ascii)
| CRange (lo hi : ascii)
| CDigit
| CSpace
| CDot
| COr (a b : cls).

(** Patterns.  [Rep lo hi r] is the greedy repetition [r{lo,hi}] ([hi =
    None] for no upper bound); [Group g r] is the capturing group number
    [g]; [WordB] is [\b]; [Bol] is [^]; [FlagI] is the inline global flag
    [(?i)], written where the source writes it. *)
Inductive regex :=
| Eps
| Chr (c : cls)
| Seq (r1 r2 : regex)
| Alt (r1 r2 : regex)
| Rep (lo : nat) (hi : option nat) (r : regex)
| Group (g : nat) (r : regex)
| WordB
| Bol
| FlagI.

Definition Star (r : regex) : regex := Rep 0 None r.
Definition Plus (r : regex) : regex := Rep 1 None r.
Definition Opt (r : regex) : regex := Rep 0 (Some 1) r.

Definition chars_between (lo hi : ascii) : list ascii :=
  map (fun n => ascii_of_nat n)
      (seq (nat_of_ascii lo) (S (nat_of_ascii hi) - nat_of_ascii lo)).

(** Membership of a character in a set.  Under IGNORECASE the lowered
    character is looked up among the lowered members of the set; the
    categories [\d] and [\s] are not affected. *)
Fixpoint cls_mem (fl : flags) (c : cls) (x : ascii) : bool :=
  match c with
  | CChar a =>
      if ignorecase fl then Ascii.eqb (lower_chr a) (lower_chr x)
      else Ascii.eqb a x
  | CRange lo hi =>
      if ignorecase fl
      then existsb (fun a => Ascii.eqb (lower_chr a) (lower_chr x))
                   (chars_between lo hi)
      else between (ord lo) (ord hi) x
  | CDigit => isdigit x
  | CSpace => isspace x
  | CDot => negb (Ascii.eqb x "010")
  | COr a b => cls_mem fl a x || cls_mem fl b x
  end.

(** The state of a match in progress: the character before the current
    position, the text from the current position on, and the groups
    captured so far (most recent first). *)
Record st := {
  prev : option ascii;
  rest : str;
  caps : list (nat * str)
}.

Definition advance (s : st) : st :=
  match rest s with
  | x :: xs => {| prev := Some x; rest := xs; caps := caps s |}
  | [] => s
  end.

(** The text between two states of the same match. *)
Definition consumed (s s1 : st) : str :=
  firstn (length (rest s) - length (rest s1)) (rest s).

Definition set_cap (g : nat) (w : str) (s : st) : st :=
  {| prev := prev s; rest := rest s; caps := (g, w) :: caps s |}.

Fixpoint lookup (g : nat) (l : list (nat * str)) : option str :=
  match l with
  | [] => None
  | (g', w) :: t => if g =? g' then Some w else lookup g t
  end.

Definition word_before (s : st) : bool :=
  match prev s with Some c => isword c | None => false end.

Definition word_after (s : st) : bool :=
  match rest s with c :: _ => isword c | [] => false end.

Definition at_boundary (s : st) : bool :=
  negb (Bool.eqb (word_before s) (word_after s)).

Definition at_bol (fl : flags) (s : st) : bool :=
  match prev s with
  | None => true
  | Some c => multiline fl && Ascii.eqb c "010"
  end.

Definition orelse {A} (a b : option A) : option A :=
  match a with
  | Some x => Some x
  | None => b
  end.

Definition may_iterate (hi : option nat) : bool :=
  match hi with
  | Some 0 => false
  | _ => true
  end.

Definition dec (hi : option nat) : option nat := option_map pred hi.

(** The greedy loop of a repetition over a matcher [body] for one
    iteration: iterate while the bounds allow and an iteration consumes
    something, otherwise (or when what follows fails) stop here if the
    lower bound is reached.  [fuel] exceeds the number of characters left,
    hence the number of iterations. *)
Fixpoint rep_loop (body : st -> (st -> option st) -> option st)
  (k : st -> option st) (fuel lo : nat) (hi : option nat) (s : st)
  {struct fuel} : option st :=
  let stop := if lo =? 0 then k s else None in
  match fuel with
  | 0 => stop
  | S fuel' =>
      if may_iterate hi then
        orelse
          (body s (fun s1 =>
             if length (rest s1) <? length (rest s)
             then rep_loop body k fuel' (pred lo) (dec hi) s1
             else None))
          stop
      else stop
  end.

(** The matcher, in continuation-passing style: [run fl r s k] matches [r]
    at [s] and hands every way of doing so, in the order of preference of
    a backtracking engine (alternatives left to right, repetitions
    greedy), to [k], until [k] accepts one. *)
Fixpoint run (fl : flags) (r : regex) (s : st) (k : st -> option st)
  {struct r} : option st :=
  match r with
  | Eps => k s
  | FlagI => k s
  | Chr c =>
      match rest s with
      | x :: _ => if cls_mem fl c x then k (advance s) else None
      | [] => None
      end
  | Seq r1 r2 => run fl r1 s (fun s1 => run fl r2 s1 k)
  | Alt r1 r2 => orelse (run fl r1 s k) (run fl r2 s k)
  | Rep lo hi r1 => rep_loop (run fl r1) k (S (length (rest s))) lo hi s
  | Group g r1 => run fl r1 s (fun s1 => k (set_cap g (consumed s s1) s1))
  | WordB => if at_boundary s then k s else None
  | Bol => if at_bol fl s then k s else None
  end.

(** A match object: where the match starts, [group(0)], the captured
    groups, and the text (with the character before it) after the match. *)
Record match_obj := {
  m_start : nat;
  m_group0 : str;
  m_caps : list (nat * str);
  m_prev : option ascii;
  m_rest : str
}.

(** [m.group(g)]; [None] for a group that did not take part. *)
Definition group (m : match_obj) (g : nat) : option str :=
  match g with
  | 0 => Some (m_group0 m)
  | _ => lookup g (m_caps m)
  end.

Definition match_at (fl : flags) (r : regex) (p : option ascii) (t : str)
  (start : nat) : option match_obj :=
  let s := {| prev := p; rest := t; caps := [] |} in
  match run fl r s (fun s1 => Some s1) with
  | Some s1 =>
      Some {| m_start := start; m_group0 := consumed s s1;
              m_caps := caps s1; m_prev := prev s1; m_rest := rest s1 |}
  | None => None
  end.

(** The scan of [search]: the leftmost position at which the pattern
    matches. *)
Fixpoint search_from (fl : flags) (r : regex) (p : option ascii) (t : str)
  (start : nat) : option match_obj :=
  match match_at fl r p t start with
  | Some m => Some m
  | None =>
      match t with
      | [] => None
      | c :: t' => search_from fl r (Some c) t' (S start)
      end
  end.

(** [re.search] with a compiled pattern *)
Definition search (fl : flags) (r : regex) (t : str) : option match_obj :=
  search_from fl r None t 0.

(** [re.match] with a compiled pattern *)
Definition match_ (fl : flags) (r : regex) (t : str) : option match_obj :=
  match_at fl r None t 0.

(** The successive non-overlapping matches of [finditer]; after an empty
    match the scan resumes one character further. *)
Fixpoint matches_from (fuel : nat) (fl : flags) (r : regex)
  (p : option ascii) (t : str) (start : nat) : list match_obj :=
  match fuel with
  | 0 => []
  | S fuel' =>
      match search_from fl r p t start with
      | None => []
      | Some m =>
          m ::
          match m_group0 m, m_rest m with
          | [], [] => []
          | [], c :: t' =>
              matches_from fuel' fl r (Some c) t' (S (m_start m))
          | _ :: _, t' =>
              matches_from fuel' fl r (m_prev m) t'
                (m_start m + length (m_group0 m))
          end
      end
  end.

(** [re.findall] for a pattern with exactly one group: the list of the
    texts of that group (the empty string for a group that did not take
    part). *)
Definition findall1 (fl : flags) (r : regex) (t : str) : list str :=
  map (fun m => match group m 1 with Some w => w | None => [] end)
      (matches_from (S (length t)) fl r None t 0).

(** ** Compilation: the inline flag *)

Fixpoint has_flag (r : regex) : bool :=
  match r with
  | FlagI => true
  | Seq r1 r2 | Alt r1 r2 => has_flag r1 || has_flag r2
  | Rep _ _ r1 | Group _ r1 => has_flag r1
  | _ => false
  end.

Definition with_ignorecase (fl : flags) : flags :=
  {| ignorecase := true; multiline := multiline fl |}.

(** [re.compile]: [(?i)] at the start of the pattern turns IGNORECASE on;
    anywhere else it does the same with a deprecation warning before
    Python 3.11 and is an error from 3.11 on. *)
Definition compile (py : python) (fl : flags) (r : regex)
  : result (flags * regex) :=
  let ci := with_ignorecase fl in
  let (leading, later) :=
    match r with
    | Seq FlagI r' => (true, has_flag r')
    | _ => (false, has_flag r)
    end in
  if later then
    if inline_flag_error py
    then Raise (ReError
                  (lit "global flags not at the start of the expression"))
    else Ok (ci, r)
  else Ok (if leading then ci else fl, r).

(** [re.search(pattern, text, flags)] *)
Definition re_search (py : python) (fl : flags) (r : regex) (t : str)
  : result (option match_obj) :=
  bind (compile py fl r) (fun c => Ok (search (fst c) (snd c) t)).

(** [re.findall(pattern, text)] for a pattern with one group *)
Definition re_findall1 (py : python) (fl : flags) (r : regex) (t : str)
  : result (list str) :=
  bind (compile py fl r) (fun c => Ok (findall1 (fst c) (snd c) t)).

Arguments re_search : simpl never.
Arguments re_findall1 : simpl never.

(** Helpers to write patterns the way the source spells them. *)
Definition chr (c : ascii) : regex := Chr (CChar c).

Fixpoint cat (l : list regex) : regex :=
  match l with
  | [] => Eps
  | [r] => r
  | r :: t => Seq r (cat t)
  end.

Definition word (s : string) : regex := cat (map chr (lit s)).

Fixpoint alts (l : list regex) : regex :=
  match l with
  | [] => Eps
  | [r] => r
  | r :: t => Alt r (alts t)
  end.

Definition words (l : list string) : regex := alts (map word l).

Arguments chr c%_char.
Arguments word s%_string.
Arguments CChar c%_char.
Arguments CRange (lo hi)%_char.

Definition digit : regex := Chr CDigit.
Definition space : regex := Chr CSpace.

(** ** What a match is: the relation the matcher implements

    [matches fl r s s1]: the pattern [r] can take the match from state [s]
    to state [s1]. *)
Inductive matches (fl : flags) : regex -> st -> st -> Prop :=
| M_eps s : matches fl Eps s s
| M_flag s : matches fl FlagI s s
| M_chr c s x xs :
    rest s = x :: xs -> cls_mem fl c x = true ->
    matches fl (Chr c) s (advance s)
| M_seq r1 r2 s s1 s2 :
    matches fl r1 s s1 -> matches fl r2 s1 s2 ->
    matches fl (Seq r1 r2) s s2
| M_alt_l r1 r2 s s1 :
    matches fl r1 s s1 -> matches fl (Alt r1 r2) s s1
| M_alt_r r1 r2 s s1 :
    matches fl r2 s s1 -> matches fl (Alt r1 r2) s s1
| M_rep_stop hi r s : matches fl (Rep 0 hi r) s s
| M_rep_iter lo hi r s s1 s2 :
    may_iterate hi = true ->
    matches fl r s s1 ->
    length (rest s1) < length (rest s) ->
    matches fl (Rep (pred lo) (dec hi) r) s1 s2 ->
    matches fl (Rep lo hi r) s s2
| M_group g r s s1 :
    matches fl r s s1 ->
    matches fl (Group g r) s (set_cap g (consumed s s1) s1)
| M_wordb s : at_boundary s = true -> matches fl WordB s s
| M_bol s : at_bol fl s = true -> matches fl Bol s s.

(** Every character of the 256. *)
Definition all_chars : list ascii := map ascii_of_nat (seq 0 256).

Arguments all_chars : simpl never.

(** Every character a set of [r] admits satisfies [P]. *)
Fixpoint chars_in (fl : flags) (P : ascii -> bool) (r : regex) : bool :=
  match r with
  | Chr c => forallb (fun x => implb (cls_mem fl c x) (P x)) all_chars
  | Seq r1 r2 | Alt r1 r2 => chars_in fl P r1 && chars_in fl P r2
  | Rep _ _ r1 | Group _ r1 => chars_in fl P r1
  | _ => true
  end.

(** Every group numbered [g] of [r] admits only characters that satisfy
    [P]. *)
Fixpoint group_chars_in (fl : flags) (g : nat) (P : ascii -> bool)
  (r : regex) : bool :=
  match r with
  | Seq r1 r2 | Alt r1 r2 =>
      group_chars_in fl g P r1 && group_chars_in fl g P r2
  | Rep _ _ r1 => group_chars_in fl g P r1
  | Group g' r1 =>
      (if g =? g' then chars_in fl P r1 else true)
      && group_chars_in fl g P r1
  | _ => true
  end.

(** The least number of characters a match of [r] consumes. *)
Fixpoint min_len (r : regex) : nat :=
  match r with
  | Chr _ => 1
  | Seq r1 r2 => min_len r1 + min_len r2
  | Alt r1 r2 => Nat.min (min_len r1) (min_len r2)
  | Rep lo _ r1 => lo * min_len r1
  | Group _ r1 => min_len r1
  | _ => 0
  end.

(** Every match of [r] goes through a group numbered [g]. *)
Fixpoint sets_group (g : nat) (r : regex) : bool :=
  match r with
  | Seq r1 r2 => sets_group g r1 || sets_group g r2
  | Alt r1 r2 => sets_group g r1 && sets_group g r2
  | Rep lo _ r1 => (0 <? lo) && sets_group g r1
  | Group g' r1 => (g =? g') || sets_group g r1
  | _ => false
  end.

Definition caps_ok (g : nat) (P : ascii -> bool) (cs : list (nat * str))
  : Prop :=
  forall w, lookup g cs = Some w -> forallb P w = true.

(** A pattern whose group [g] admits no character outside [P], under the
    flags it is searched with and under those flags with IGNORECASE. *)
Definition group_within (fl : flags) (g : nat) (P : ascii -> bool)
  (r : regex) : Prop :=
  group_chars_in fl g P r = true /\
  group_chars_in (with_ignorecase fl) g P r = true.

(** The patterns inside the groups numbered [g] of [r]. *)
Fixpoint group_bodies (g : nat) (r : regex) : list regex :=
  match r with
  | Seq r1 r2 | Alt r1 r2 => group_bodies g r1 ++ group_bodies g r2
  | Rep _ _ r1 => group_bodies g r1
  | Group g' r1 => (if g =? g' then [r1] else []) ++ group_bodies g r1
  | _ => []
  end.

(** Whatever a group numbered [g] of [r] matches is in the language
    [L]. *)
Definition group_lang (fl : flags) (g : nat) (L : str -> Prop) (r : regex)
  : Prop :=
  Forall (fun body => forall a b, matches fl body a b -> L (consumed a b))
         (group_bodies g r).

(** [m] records a match of [r] somewhere in a text. *)
Definition found (fl : flags) (r : regex) (m : match_obj) : Prop :=
  exists p t s1,
    matches fl r {| prev := p; rest := t; caps := [] |} s1 /\
    m_caps m = caps s1 /\ m_rest m = rest s1 /\
    t = m_group0 m ++ m_rest m.

(** Every match of [r] consumes a character that satisfies [P]. *)
Fixpoint must_have (fl : flags) (P : ascii -> bool) (r : regex) : bool :=
  match r with
  | Chr c => forallb (fun x => implb (cls_mem fl c x) (P x)) all_chars
  | Seq r1 r2 => must_have fl P r1 || must_have fl P r2
  | Alt r1 r2 => must_have fl P r1 && must_have fl P r2
  | Rep lo _ r1 => (0 <? lo) && must_have fl P r1
  | Group _ r1 => must_have fl P r1
  | _ => false
  end.

(** The same under the flags a pattern is searched with and under those
    flags with IGNORECASE. *)
Definition always_has (fl : flags) (P : ascii -> bool) (r : regex) : Prop :=
  must_have fl P r = true /\ must_have (with_ignorecase fl) P r = true.

(** No character of [t] satisfies [P]. *)
Definition absent (P : ascii -> bool) (t : str) : Prop :=
  forallb (fun c => negb (P c)) t = true.

(** The pattern has an inline flag after its start, the case in which
    [compile] depends on the release. *)
Definition later_flag (r : regex) : bool :=
  match r with
  | Seq FlagI r' => has_flag r'
  | _ => has_flag r
  end.

(** Every captured group is a part of the text [T]. *)
Definition caps_in (T : str) (cs : list (nat * str)) : Prop :=
  forall g w, lookup g cs = Some w -> occurs_in w T.

(** A pattern without repetition. *)
Fixpoint finite (r : regex) : bool :=
  match r with
  | Seq r1 r2 | Alt r1 r2 => finite r1 && finite r2
  | Rep _ _ _ => false
  | Group _ r1 => finite r1
  | _ => true
  end.

(** The texts a pattern without repetition can consume. *)
Fixpoint texts (fl : flags) (r : regex) : list str :=
  match r with
  | Chr c => map (fun x => [x]) (filter (cls_mem fl c) all_chars)
  | Seq r1 r2 =>
      flat_map (fun a => map (fun b => a ++ b) (texts fl r2)) (texts fl r1)
  | Alt r1 r2 => texts fl r1 ++ texts fl r2
  | Group _ r1 => texts fl r1
  | _ => [[]]
  end.

End Re.

(* ===================================================================== *)
(** * [datetime.strptime] and [strftime] *)
(* ===================================================================== *)

Module Datetime.
Import Py Re.

Record datetime := {
  year : Z;
  month : Z;
  day : Z
}.

(** The directives of the formats this program uses. *)
Inductive directive :=
| Dm          (* %m *)
| Dd          (* %d *)
| DY          (* %Y *)
| Dy          (* %y *)
| Dlit (c : ascii).

Definition rng (lo hi : ascii) : regex := Chr (CRange lo hi).

Arguments rng (lo hi)%_char.
Arguments Dlit c%_char.

(** The regular expression [_strptime] builds for a directive; the named
    groups m, d, Y and y are the groups 1 to 4. *)
Definition directive_re (d : directive) : regex :=
  match d with
  | Dm => Group 1 (alts [Seq (chr "1") (rng "0" "2");
                         Seq (chr "0") (rng "1" "9");
                         rng "1" "9"])
  | Dd => Group 2 (alts [Seq (chr "3") (rng "0" "1");
                         Seq (rng "1" "2") digit;
                         Seq (chr "0") (rng "1" "9");
                         rng "1" "9";
                         Seq (chr " ") (rng "1" "9")])
  | DY => Group 3 (cat [digit; digit; digit; digit])
  | Dy => Group 4 (cat [digit; digit])
  | Dlit c => chr c
  end.

Definition format_re (fmt : list directive) : regex :=
  cat (map directive_re fmt).

Definition number (w : str) : Z := digits_val (filter isdigit w).

Definition is_leap (y : Z) : bool :=
  ((y mod 4 =? 0) && (negb (y mod 100 =? 0) || (y mod 400 =? 0)))%Z.

Definition days_in_month (y m : Z) : Z :=
  (if m =? 2 then (if is_leap y then 29 else 28)
   else if (m =? 4) || (m =? 6) || (m =? 9) || (m =? 11) then 30
   else 31)%Z.

(** [datetime.strptime(s, fmt)]: the text must match the expression of
    the format from its start (IGNORECASE), nothing may remain after the
    match, and the fields must form a date of the years 1 to 9999; a
    two-digit year below 69 is of the 2000s, another one of the 1900s. *)
Definition strptime (s : str) (fmt : list directive) : result datetime :=
  match match_ IGNORECASE (format_re fmt) s with
  | None => Raise (ValueError s)
  | Some m =>
      match m_rest m with
      | _ :: _ => Raise (ValueError s)
      | [] =>
          let y :=
            match group m 3, group m 4 with
            | Some w, _ => number w
            | None, Some w =>
                (if number w <=? 68 then 2000 + number w
                 else 1900 + number w)%Z
            | None, None => 1900%Z
            end in
          let mo := match group m 1 with Some w => number w | None => 1%Z end in
          let d := match group m 2 with Some w => number w | None => 1%Z end in
          if ((1 <=? y) && (d <=? days_in_month y mo))%Z
          then Ok {| year := y; month := mo; day := d |}
          else Raise (ValueError s)
      end
  end.

Definition decimal (n : Z) : str :=
  lit (NilEmpty.string_of_uint (N.to_uint (Z.to_N n))).

Definition two_digits (n : Z) : str :=
  (if n <? 10 then "0"%char :: decimal n else decimal n)%Z.

(** [d.strftime('%Y-%m-%d')], the year as the C library of Linux prints
    it (no padding). *)
Definition strftime_Ymd (d : datetime) : str :=
  decimal (year d) ++ "-"%char :: two_digits (month d)
    ++ "-"%char :: two_digits (day d).

(** The formats ['%m/%d/%Y'], ['%Y-%m-%d'], ['%m-%d-%Y'], ['%d-%m-%Y'],
    ['%m/%d/%y'] and ['%d/%m/%y']. *)
Definition fmt_m_d_Y_slash := [Dm; Dlit "/"; Dd; Dlit "/"; DY].
Definition fmt_Y_m_d_dash := [DY; Dlit "-"; Dm; Dlit "-"; Dd].
Definition fmt_m_d_Y_dash := [Dm; Dlit "-"; Dd; Dlit "-"; DY].
Definition fmt_d_m_Y_dash := [Dd; Dlit "-"; Dm; Dlit "-"; DY].
Definition fmt_m_d_y_slash := [Dm; Dlit "/"; Dd; Dlit "/"; Dy].
Definition fmt_d_m_y_slash := [Dd; Dlit "/"; Dm; Dlit "/"; Dy].

(** What the expression of a directive allows for the number of its
    group: a month 1 to 12, a day 1 to 31, a year of four digits, a year
    of two digits. *)
Definition field_ok (g : nat) (w : str) : bool :=
  match g with
  | 1%nat => (1 <=? number w) && (number w <=? 12)
  | 2%nat => (1 <=? number w) && (number w <=? 31)
  | 3%nat => (0 <=? number w) && (number w <=? 9999)
  | 4%nat => (0 <=? number w) && (number w <=? 99)
  | _ => true
  end%Z.

(** A date of the calendar, of the years 1 to 9999. *)
Definition calendar_date (d : datetime) : Prop :=
  (1 <= year d <= 9999 /\ 1 <= month d <= 12 /\
   1 <= day d <= days_in_month (year d) (month d))%Z.

End Datetime.

(* ===================================================================== *)
(** * [class ReceiptProcessor] *)
(* ===================================================================== *)

Module ReceiptProcessor.
Import Py Re Datetime.

Notation "x <- c ;; k" := (bind c (fun x => k))
  (at level 61, c at next level, right associativity).

(** A line item, a [dict] with these five keys. *)
Record LineItem := {
  description : str;
  quantity : Z;
  unit_price : Q;
  total_price : Q;
  category : str
}.

(** The [dict] [process_receipt] returns; the key ['error'] is present
    only in the record of the [except] branch. *)
Record Receipt := {
  error : option exn;
  vendor : str;
  date : str;
  total : Q;
  payment_method : str;
  currency : str;
  raw_text : str;
  confidence : Q;
  items : list LineItem
}.

(** What holds of every item [parse_items] builds. *)
Definition item_ok (i : LineItem) : Prop :=
  trimmed (description i) /\
  (0 <= quantity i)%Z /\
  (0 <= unit_price i)%Q /\ (0 <= total_price i)%Q /\
  category i = lit "general".

(** An ASCII letter or a whitespace character, the characters of the
    first group of the item pattern. *)
Definition letter_or_space (c : ascii) : bool :=
  between 65 90 c || between 97 122 c || isspace c.

(** A capital ASCII letter followed by one or more small ASCII letters. *)
Definition capitalised_word (v : str) : Prop :=
  exists c w,
    v = c :: w /\ between 65 90 c = true /\ w <> [] /\
    forallb (between 97 122) w = true.

(** ** Patterns *)

Definition months : regex :=
  words ["Jan"; "Feb"; "Mar"; "Apr"; "May"; "Jun";
         "Jul"; "Aug"; "Sep"; "Oct"; "Nov"; "Dec"]%string.

(** [\b\d{1,2}/\d{1,2}/\d{2,4}\b] *)
Definition slash_date : regex :=
  cat [WordB; Rep 1 (Some 2) digit; chr "/"; Rep 1 (Some 2) digit; chr "/";
       Rep 2 (Some 4) digit; WordB].

(** [\b\d{1,2}-\d{1,2}-\d{2,4}\b] *)
Definition dash_date : regex :=
  cat [WordB; Rep 1 (Some 2) digit; chr "-"; Rep 1 (Some 2) digit; chr "-";
       Rep 2 (Some 4) digit; WordB].

(** [\b\d{4}-\d{2}-\d{2}\b] *)
Definition iso_date : regex :=
  cat [WordB; Rep 4 (Some 4) digit; chr "-"; Rep 2 (Some 2) digit; chr "-";
       Rep 2 (Some 2) digit; WordB].

(** [\b(Jan|...|Dec)[a-z]* \d{1,2},? \d{4}\b] *)
Definition month_day_date : regex :=
  cat [WordB; Group 1 months; Star (Chr (CRange "a" "z")); chr " ";
       Rep 1 (Some 2) digit; Opt (chr ","); chr " "; Rep 4 (Some 4) digit;
       WordB].

(** [\b\d{1,2} (Jan|...|Dec)[a-z]* \d{4}\b] *)
Definition day_month_date : regex :=
  cat [WordB; Rep 1 (Some 2) digit; chr " "; Group 1 months;
       Star (Chr (CRange "a" "z")); chr " "; Rep 4 (Some 4) digit; WordB].

Definition date_patterns : list regex :=
  [slash_date; dash_date; iso_date; month_day_date; day_month_date].

Definition upper_az : regex := Chr (CRange "A" "Z").
Definition lower_az : regex := Chr (CRange "a" "z").

(** [^[A-Z][a-z]+(\s+[A-Z][a-z]+)*\s+(w1|w2|...)\b] *)
Definition business_name (suffixes : list string) : regex :=
  cat [Bol; upper_az; Plus lower_az;
       Star (Group 1 (cat [Plus space; upper_az; Plus lower_az]));
       Plus space; Group 2 (words suffixes); WordB].

Definition label_words : list string :=
  ["vendor"; "merchant"; "store"; "restaurant"; "cafe"; "shop"]%string.

Definition greeting_words : list string :=
  ["thank you"; "visit again"; "welcome to"]%string.

(** [(?i)(vendor|merchant|store|restaurant|cafe|shop):?\s*(.+)] *)
Definition vendor_label : regex :=
  cat [FlagI; Group 1 (words label_words);
       Opt (chr ":"); Star space; Group 2 (Plus (Chr CDot))].

(** [(?i)(thank you|visit again|welcome to)\s*(.+)] *)
Definition vendor_greeting : regex :=
  cat [FlagI; Group 1 (words greeting_words);
       Star space; Group 2 (Plus (Chr CDot))].

Definition vendor_patterns : list regex :=
  [vendor_label; vendor_greeting;
   business_name ["Inc"; "LLC"; "Corp"; "Ltd"; "Pty"]%string;
   business_name ["Restaurant"; "Cafe"; "Store"; "Market"; "Shop"]%string].

(** A text that is one of the words but for the case of its letters. *)
Definition one_of (ws : list string) (g : str) : Prop :=
  In (lower g) (map (fun w => lower (lit w)) ws).

(** The bracket set of currency signs, [$], U+00E2, U+00AC and U+00C2
    (see the conventions at the head of the file). *)
Definition currency_sign : regex :=
  Chr (COr (CChar "$")
      (COr (CChar "226") (COr (CChar "172") (CChar "194")))).

(** [[\d,]+\.\d{2}] *)
Definition amount : regex :=
  cat [Plus (Chr (COr CDigit (CChar ","))); chr "."; Rep 2 (Some 2) digit].

(** The texts [amount] matches: digits and commas, a point, two digits. *)
Definition amount_text (w : str) : Prop :=
  exists x d1 d2,
    w = x ++ "."%char :: [d1; d2] /\
    forallb (fun c => isdigit c || Ascii.eqb c ",") x = true /\
    isdigit d1 = true /\ isdigit d2 = true.

(** [(?i)(total|amount|balance|due):?\s*[$..]?\s*([\d,]+\.\d{2})] *)
Definition label_colon_amount : regex :=
  cat [FlagI; Group 1 (words ["total"; "amount"; "balance"; "due"]%string);
       Opt (chr ":"); Star space; Opt currency_sign; Star space;
       Group 2 amount].

(** [(?i)(subtotal|total|amount)\s*[$..]?\s*([\d,]+\.\d{2})] *)
Definition label_amount : regex :=
  cat [FlagI; Group 1 (words ["subtotal"; "total"; "amount"]%string);
       Star space; Opt currency_sign; Star space; Group 2 amount].

(** [[$..]?\s*([\d,]+\.\d{2})\s*(?i)(total|due|balance)] *)
Definition amount_label : regex :=
  cat [Opt currency_sign; Star space; Group 1 amount; Star space; FlagI;
       Group 2 (words ["total"; "due"; "balance"]%string)].

Definition total_patterns : list regex :=
  [label_colon_amount; label_amount; amount_label].

(** [[$..]?\s*([\d,]+\.\d{2})] *)
Definition amount_pattern : regex :=
  cat [Opt currency_sign; Star space; Group 1 amount].

(** [([A-Za-z\s]+)\s+(\d+)\s+@\s+([$..]?\s*[\d,]+\.\d{2})\s+([$..]?\s*[\d,]+\.\d{2})] *)
Definition item_pattern : regex :=
  cat [Group 1 (Plus (Chr (COr (CRange "A" "Z")
                               (COr (CRange "a" "z") CSpace))));
       Plus space; Group 2 (Plus digit); Plus space; chr "@"; Plus space;
       Group 3 (cat [Opt currency_sign; Star space; amount]);
       Plus space;
       Group 4 (cat [Opt currency_sign; Star space; amount])].

Definition methods : list str :=
  map lit ["cash"; "credit"; "debit"; "visa"; "mastercard"; "amex";
           "discover"; "paypal"; "venmo"; "apple pay"; "google pay";
           "mobile pay"]%string.

(** [m.group(g)] used as a string: [None] has no [str] method. *)
Definition group_str (m : match_obj) (g : nat) : result str :=
  match group m g with
  | Some w => Ok w
  | None => Raise AttributeError
  end.

(** ** [parse_date] *)

(** The [for fmt in (...)] loop: the value bound to [parsed] when the loop
    is left, if any ([strptime] raises nothing but [ValueError]). *)
Fixpoint try_formats (date_str : str) (fmts : list (list directive))
  : option datetime :=
  match fmts with
  | [] => None
  | fmt :: more =>
      match strptime date_str fmt with
      | Ok d => Some d
      | Raise _ => try_formats date_str more
      end
  end.

(** The body of the inner [try]: the [if]/[elif]/[else] that binds
    [parsed], then [return parsed.strftime('%Y-%m-%d')].  When no format
    of the [else] branch parses, [parsed] is unbound at the [return]. *)
Definition parse_match (date_str : str) : result str :=
  parsed <-
    (if contains_chr date_str "/" then strptime date_str fmt_m_d_Y_slash
     else if contains_chr date_str "-"
             && (length (hd [] (split "-" date_str)) =? 4)
     then strptime date_str fmt_Y_m_d_dash
     else match try_formats date_str
                  [fmt_m_d_Y_dash; fmt_d_m_Y_dash;
                   fmt_m_d_y_slash; fmt_d_m_y_slash] with
          | Some d => Ok d
          | None => Raise (UnboundLocalError (lit "parsed"))
          end) ;;
  Ok (strftime_Ymd parsed).

(** The [for pattern in date_patterns] loop; a [ValueError] of the inner
    [try] goes on with the next pattern, any other exception leaves the
    function. *)
Fixpoint parse_date_loop (py : python) (patterns : list regex) (text : str)
  : result (option str) :=
  match patterns with
  | [] => Ok None
  | pattern :: more =>
      m <- re_search py IGNORECASE pattern text ;;
      match m with
      | Some mo =>
          except_ValueError
            (d <- parse_match (m_group0 mo) ;; Ok (Some d))
            (parse_date_loop py more text)
      | None => parse_date_loop py more text
      end
  end.

Definition parse_date (py : python) (text : str) : result (option str) :=
  parse_date_loop py date_patterns text.

(** ** [parse_vendor] *)

(** The [for pattern in patterns] loop: [match.group(1).strip()] is
    returned when it has more than two characters. *)
Fixpoint parse_vendor_loop (py : python) (patterns : list regex)
  (text : str) : result (option str) :=
  match patterns with
  | [] => Ok None
  | pattern :: more =>
      m <- re_search py MULTILINE pattern text ;;
      match m with
      | Some mo =>
          g <- group_str mo 1 ;;
          let vendor := strip g in
          if 2 <? length vendor then Ok (Some vendor)
          else parse_vendor_loop py more text
      | None => parse_vendor_loop py more text
      end
  end.

(** The fallback loop over [lines[:3]], and the final "Unknown Vendor". *)
Fixpoint first_line (lines : list str) : str :=
  match lines with
  | [] => lit "Unknown Vendor"
  | l :: more =>
      let line := strip l in
      if (2 <? length line)
         && negb (startswith line (lit "Date:"))
         && negb (startswith line (lit "Time:"))
      then line
      else first_line more
  end.

Definition parse_vendor (py : python) (text : str) : result str :=
  v <- parse_vendor_loop py vendor_patterns text ;;
  match v with
  | Some vendor => Ok vendor
  | None => Ok (first_line (firstn 3 (split "010" text)))
  end.

(** ** [parse_total] *)

(** The [for pattern in patterns] loop: [float] of [match.group(1)]
    without its commas is returned, a [ValueError] goes on with the next
    pattern. *)
Fixpoint parse_total_loop (py : python) (patterns : list regex) (text : str)
  : result (option Q) :=
  match patterns with
  | [] => Ok None
  | pattern :: more =>
      m <- re_search py no_flags pattern text ;;
      match m with
      | Some mo =>
          g <- group_str mo 1 ;;
          let amount_str := remove_chr "," g in
          except_ValueError
            (a <- float amount_str ;; Ok (Some a))
            (parse_total_loop py more text)
      | None => parse_total_loop py more text
      end
  end.

(** After the loop, the fallback: the last of [re.findall], or 0.0. *)
Definition parse_total (py : python) (text : str) : result Q :=
  t <- parse_total_loop py total_patterns text ;;
  match t with
  | Some a => Ok a
  | None =>
      amounts <- re_findall1 py no_flags amount_pattern text ;;
      match amounts with
      | _ :: _ => float (remove_chr "," (last amounts []))
      | [] => Ok 0.0%Q
      end
  end.

(** ** [parse_payment_method] *)

(** The [for method in methods] loop. *)
Fixpoint find_method (ms : list str) (text_lower : str) : str :=
  match ms with
  | [] => lit "Unknown"
  | method :: more =>
      if contains text_lower method then capitalize method
      else find_method more text_lower
  end.

Definition parse_payment_method (text : str) : str :=
  find_method methods (lower text).

(** ** [parse_items] *)

(** [float(g.replace('$', '').replace(',', ''))] *)
Definition price (g : str) : result Q :=
  float (remove_chr "," (remove_chr "$" g)).

(** The body of [for line in lines]: the item the line adds, if any. *)
Definition parse_line (py : python) (line : str) : result (option LineItem) :=
  m <- re_search py no_flags item_pattern line ;;
  match m with
  | Some mo =>
      g1 <- group_str mo 1 ;;
      let description := strip g1 in
      g2 <- group_str mo 2 ;;
      quantity <- int py g2 ;;
      g3 <- group_str mo 3 ;;
      unit_price <- price g3 ;;
      g4 <- group_str mo 4 ;;
      total_price <- price g4 ;;
      Ok (Some {| description := description;
                  quantity := quantity;
                  unit_price := unit_price;
                  total_price := total_price;
                  category := lit "general" |})
  | None => Ok None
  end.

(** The [for line in lines] loop, [items] being the list built so far. *)
Fixpoint parse_lines (py : python) (lines : list str) (items : list LineItem)
  : result (list LineItem) :=
  match lines with
  | [] => Ok items
  | line :: more =>
      i <- parse_line py line ;;
      match i with
      | Some item => parse_lines py more (items ++ [item])
      | None => parse_lines py more items
      end
  end.

Definition parse_items (py : python) (text : str) : result (list LineItem) :=
  parse_lines py (split "010" text) [].

(** ** [process_receipt] *)

Section Pipeline.

(** The collaborators: the [cv2] calls of [preprocess_image] and
    [pytesseract.image_to_string], each giving its value or the text of
    the exception it raised; and [datetime.now().strftime('%Y-%m-%d')]. *)
Variable Image : Type.
Variable cv2_pipeline : str -> Image + str.
Variable image_to_string : Image -> str + str.
Variable today : str.

Definition preprocess_image (image_path : str) : result Image :=
  match cv2_pipeline image_path with
  | inl image => Ok image
  | inr e => Raise (RuntimeError (lit "Image preprocessing failed: " ++ e))
  end.

Definition extract_text (image : Image) : result str :=
  match image_to_string image with
  | inl text => Ok text
  | inr e => Raise (RuntimeError (lit "Text extraction failed: " ++ e))
  end.

(** [a or b] on an optional string: [None] and [''] are false. *)
Definition or_else (a : option str) (b : str) : str :=
  match a with
  | Some (c :: t) => c :: t
  | _ => b
  end.

(** The body of the [try] block. *)
Definition process_body (py : python) (image_path : str) : result Receipt :=
  processed_image <- preprocess_image image_path ;;
  text <- extract_text processed_image ;;
  vendor <- parse_vendor py text ;;
  d <- parse_date py text ;;
  let date := or_else d today in
  total <- parse_total py text ;;
  let payment_method := parse_payment_method text in
  items <- parse_items py text ;;
  let confidence := if 0 <? length items then 0.95%Q else 0.85%Q in
  Ok {| error := None;
        vendor := vendor;
        date := date;
        total := total;
        payment_method := payment_method;
        currency := lit "USD";
        raw_text := text;
        confidence := confidence;
        items := items |}.

(** The [dict] of the [except] block. *)
Definition error_record (e : exn) : Receipt :=
  {| error := Some e;
     vendor := lit "Unknown";
     date := today;
     total := 0.0%Q;
     payment_method := lit "Unknown";
     currency := lit "USD";
     raw_text := [];
     confidence := 0.5%Q;
     items := [] |}.

Definition process_receipt (py : python) (image_path : str)
  : result Receipt :=
  except_Exception (process_body py image_path)
                   (fun e => Ok (error_record e)).

End Pipeline.

Arguments preprocess_image {Image}.
Arguments extract_text {Image}.
Arguments process_body {Image}.
Arguments process_receipt {Image}.

End ReceiptProcessor.

(* ===================================================================== *)
(** * Receipt texts used in the examples *)
(* ===================================================================== *)

Module Scenario.
Import Py Re Datetime ReceiptProcessor.

Definition nl : ascii := "010".

Definition coffee_line : str := lit "Coffee 2 @ $3.50 $7.00".

Definition coffee_item : LineItem :=
  {| description := lit "Coffee"; quantity := 2;
     unit_price := 3.50%Q; total_price := 7.00%Q;
     category := lit "general" |}.

(** A till receipt whose labelled total is followed by the cash given and
    the change. *)
Definition till_receipt : str :=
  join nl [lit "Total: $45.67"; lit "Cash $50.00"; lit "Change $4.33"].

(** An item line whose prices carry the sign U+00AC of the currency set. *)
Definition not_sign_price : str := "172"%char :: lit "2.00".

Definition not_sign_line : str :=
  lit "Tea 1 @ " ++ not_sign_price ++ lit " " ++ not_sign_price.

(** Collaborators that read the image and recognise the given text. *)
Definition reads : str -> unit + str := fun _ => inl tt.
Definition recognises (text : str) : unit -> str + str := fun _ => inl text.

End Scenario.


(* ===================================================================== *)
(** * Properties of the [str] methods and of the number conversions *)
(* ===================================================================== *)

Section StrFacts.
Import Py.

Lemma last_in {A} (l : list A) (d : A) : l <> [] -> In (last l d) l.
Proof.
  induction l as [|x l IH]; [congruence|]. intros _.
  destruct l as [|y l]; [now left|].
  right. apply IH. discriminate.
Qed.

Lemma drop_while_incl p s c : In c (drop_while p s) -> In c s.
Proof.
  induction s as [|x s IH]; simpl; [tauto|].
  destruct (p x); simpl; auto.
Qed.

Lemma strip_with_incl p s c : In c (strip_with p s) -> In c s.
Proof.
  unfold strip_with. intros H.
  apply in_rev in H. apply drop_while_incl in H. apply in_rev in H.
  now apply drop_while_incl in H.
Qed.

Lemma forallb_strip_with P p s :
  forallb P s = true -> forallb P (strip_with p s) = true.
Proof.
  rewrite !forallb_forall. intros H c Hc. apply H.
  eapply strip_with_incl; eauto.
Qed.

Lemma forallb_remove_chr P c s :
  forallb P s = true -> forallb P (remove_chr c s) = true.
Proof.
  rewrite !forallb_forall. intros H x Hx. apply H.
  unfold remove_chr in Hx. apply filter_In in Hx. tauto.
Qed.

Lemma drop_while_head p s c t :
  drop_while p s = c :: t -> p c = false.
Proof.
  induction s as [|x s IH]; simpl; [discriminate|].
  destruct (p x) eqn:E; [assumption|].
  intros H. injection H as <- _. exact E.
Qed.

Lemma drop_while_split p s :
  exists pre, s = pre ++ drop_while p s /\ forallb p pre = true.
Proof.
  induction s as [|x s (pre & E & Hp)]; simpl.
  - exists []. auto.
  - destruct (p x) eqn:Ex.
    + exists (x :: pre). simpl. rewrite Ex, Hp. split; [now f_equal|auto].
    + exists []. auto.
Qed.

(** [strip] leaves no whitespace at either end. *)
Lemma strip_with_ends p s :
  (forall c t, strip_with p s = c :: t -> p c = false) /\
  (forall c t, strip_with p s = t ++ [c] -> p c = false).
Proof.
  unfold strip_with.
  set (a := drop_while p s).
  destruct (drop_while_split p (rev a)) as (pre & E & Hp).
  set (b := drop_while p (rev a)) in *.
  split.
  - intros c t H.
    assert (Ea : a = rev b ++ rev pre).
    { rewrite <- rev_app_distr, <- E. symmetry. apply rev_involutive. }
    rewrite H in Ea. simpl in Ea.
    unfold a in Ea. eapply drop_while_head; eauto.
  - intros c t H.
    assert (Eb : b = c :: rev t).
    { rewrite <- (rev_involutive b), H, rev_app_distr. reflexivity. }
    unfold b in Eb. eapply drop_while_head; eauto.
Qed.

Lemma startswith_spec p : forall s,
  startswith s p = true <-> exists post, s = p ++ post.
Proof.
  induction p as [|a p IH]; intros s; simpl.
  - split; [intros _; now exists s | reflexivity].
  - destruct s as [|b s].
    + split; [discriminate | intros (post & E); discriminate].
    + rewrite andb_true_iff, Ascii.eqb_eq, IH. split.
      * intros (-> & post & ->). now exists post.
      * intros (post & E). injection E as -> ->. split; [reflexivity|].
        now exists post.
Qed.

(** [in] decides occurrence. *)
Lemma contains_spec p : forall s,
  contains s p = true <-> occurs_in p s.
Proof.
  unfold occurs_in.
  induction s as [|c s IH]; simpl; rewrite orb_true_iff, startswith_spec.
  - split.
    + intros [(post & E)|H]; [|discriminate]. now exists [], post.
    + intros (pre & post & E). left.
      destruct pre; [now exists post | discriminate].
  - rewrite IH. split.
    + intros [(post & E)|(pre & post & E)].
      * now exists [], post.
      * exists (c :: pre), post. simpl. now f_equal.
    + intros (pre & post & E). destruct pre as [|x pre].
      * left. now exists post.
      * right. injection E as _ E. now exists pre, post.
Qed.

Lemma split_sign_spec s neg body :
  split_sign s = (neg, body) ->
  (neg = true -> In "-"%char s) /\ (forall c, In c body -> In c s).
Proof.
  destruct s as [|c t]; simpl.
  - intros H. injection H as <- <-. split; [discriminate | auto].
  - destruct (Ascii.eqb c "-") eqn:E1.
    + apply Ascii.eqb_eq in E1. subst c.
      intros H. injection H as <- <-. split; auto.
    + destruct (Ascii.eqb c "+"); intros H; injection H as <- <-;
        split; try discriminate; simpl; auto.
Qed.

Lemma digit_val_nonneg c : isdigit c = true -> (0 <= digit_val c)%Z.
Proof.
  unfold isdigit, between, digit_val. intros H.
  apply andb_prop in H. destruct H as [H _].
  apply N.leb_le in H. lia.
Qed.

Lemma digits_val_nonneg s :
  all_digits s = true -> (0 <= digits_val s)%Z.
Proof.
  unfold digits_val, all_digits.
  assert (G : forall acc, (0 <= acc)%Z -> forallb isdigit s = true ->
              (0 <= fold_left (fun a c => 10 * a + digit_val c) s acc)%Z).
  { induction s as [|c s IH]; cbn [fold_left forallb]; intros acc Ha H;
      [assumption|].
    apply andb_prop in H. destruct H as [Hc Hs].
    apply IH; [|assumption].
    pose proof (digit_val_nonneg c Hc). lia. }
  apply G. lia.
Qed.

Lemma span_digits_fst s : all_digits (fst (span_digits s)) = true.
Proof.
  induction s as [|c s IH]; simpl; [reflexivity|].
  destruct (isdigit c) eqn:E; [|reflexivity].
  destruct (span_digits s) as [d r]. simpl in *. now rewrite E, IH.
Qed.

Lemma span_digits_app s : s = fst (span_digits s) ++ snd (span_digits s).
Proof.
  induction s as [|c s IH]; simpl; [reflexivity|].
  destruct (isdigit c); [|reflexivity].
  destruct (span_digits s) as [d r]. simpl in *. now f_equal.
Qed.

Lemma Qle_0_make (a : Z) (d : positive) : (0 <= a)%Z -> (0 <= Qmake a d)%Q.
Proof. intros H. unfold Qle. simpl. lia. Qed.

(** [float] of a text without a minus sign is not negative. *)
Lemma float_nonneg s q :
  float s = Ok q -> forallb not_minus s = true -> (0 <= q)%Q.
Proof.
  unfold float. intros H Hs.
  destruct (split_sign (num_strip s)) as [neg body] eqn:Es.
  apply split_sign_spec in Es. destruct Es as [Hneg _].
  assert (neg = false) as ->.
  { destruct neg; [|reflexivity]. specialize (Hneg eq_refl).
    apply strip_with_incl in Hneg.
    rewrite forallb_forall in Hs. now apply Hs in Hneg. }
  pose proof (span_digits_fst body) as Hip.
  destruct (span_digits body) as [ip r]. simpl in Hip.
  destruct (match r with [] => _ | _ => _ end) as [fp ok] eqn:Er.
  destruct ok; simpl in H; [|discriminate].
  destruct (length ip + length fp =? 0); [discriminate|].
  injection H as <-. apply Qle_0_make. apply digits_val_nonneg.
  unfold all_digits in *. rewrite forallb_app, Hip. simpl.
  destruct r as [|c f]; [injection Er as <-; reflexivity|].
  destruct (Ascii.eqb c ".") eqn:Ec.
  - apply Ascii.eqb_eq in Ec. subst c. injection Er as <- <-. reflexivity.
  - destruct c as [[] [] [] [] [] [] [] []]; try discriminate;
      injection Er as <-; reflexivity.
Qed.

(** [float] accepts only a text with a digit. *)
Lemma float_has_digit s q :
  float s = Ok q -> forallb not_digit s = true -> False.
Proof.
  unfold float. intros H Hs.
  destruct (split_sign (num_strip s)) as [neg body] eqn:Es.
  apply split_sign_spec in Es. destruct Es as [_ Hbody].
  assert (Hb : forall c, In c body -> isdigit c = false).
  { intros c Hc. apply Hbody, strip_with_incl in Hc.
    rewrite forallb_forall in Hs. apply Hs in Hc.
    unfold not_digit in Hc. now destruct (isdigit c). }
  pose proof (span_digits_fst body) as Hip.
  pose proof (span_digits_app body) as Happ.
  destruct (span_digits body) as [ip r]. simpl in Hip, Happ.
  assert (ip = []) as ->.
  { destruct ip as [|c ip]; [reflexivity|]. simpl in Hip.
    apply andb_prop in Hip. destruct Hip as [Hc _].
    rewrite Hb in Hc; [discriminate|]. rewrite Happ. now left. }
  simpl in Happ. subst r.
  destruct body as [|c f]; [discriminate|].
  destruct (Ascii.eqb c ".") eqn:Ec.
  - apply Ascii.eqb_eq in Ec. subst c.
    destruct (all_digits f) eqn:Hf; simpl in H; [|discriminate].
    destruct f as [|d f]; [discriminate|].
    simpl in Hf. apply andb_prop in Hf. destruct Hf as [Hd _].
    rewrite Hb in Hd; [discriminate|]. right. now left.
  - destruct c as [[] [] [] [] [] [] [] []]; try discriminate;
      simpl in H; discriminate.
Qed.

Lemma drop_while_none p s :
  forallb (fun c => negb (p c)) s = true -> drop_while p s = s.
Proof.
  destruct s as [|c t]; simpl; [reflexivity|].
  intros H. apply andb_prop in H. destruct H as [H _].
  now destruct (p c).
Qed.

(** [strip] leaves a text without whitespace as it is. *)
Lemma strip_with_none p s :
  forallb (fun c => negb (p c)) s = true -> strip_with p s = s.
Proof.
  intros H. unfold strip_with. rewrite (drop_while_none p s H).
  rewrite drop_while_none; [apply rev_involutive|].
  rewrite forallb_forall in *. intros c Hc. apply H. now apply in_rev.
Qed.

Lemma span_digits_stop x c r :
  all_digits x = true -> isdigit c = false ->
  span_digits (x ++ c :: r) = (x, c :: r).
Proof.
  intros Hx Hc. induction x as [|d x IH]; simpl.
  - now rewrite Hc.
  - simpl in Hx. apply andb_prop in Hx. destruct Hx as [Hd Hx].
    now rewrite Hd, (IH Hx).
Qed.

(** [float] accepts digits, a point and two digits. *)
Lemma float_decimal x d1 d2 :
  all_digits x = true -> isdigit d1 = true -> isdigit d2 = true ->
  exists q, float (x ++ "."%char :: [d1; d2]) = Ok q.
Proof.
  intros Hx H1 H2. unfold float, num_strip.
  assert (Hd : forall c, isdigit c = true ->
                 isspace_num c = false /\ Ascii.eqb c "-" = false /\
                 Ascii.eqb c "+" = false).
  { intros c. destruct c as [[] [] [] [] [] [] [] []]; intros H;
      try discriminate H; repeat split. }
  rewrite strip_with_none.
  2:{ rewrite forallb_app. apply andb_true_intro. split.
      - rewrite forallb_forall. intros c Hc. unfold all_digits in Hx.
        rewrite forallb_forall in Hx.
        now rewrite (proj1 (Hd c (Hx c Hc))).
      - simpl. now rewrite (proj1 (Hd d1 H1)), (proj1 (Hd d2 H2)). }
  assert (Hs : split_sign (x ++ "."%char :: [d1; d2])
               = (false, x ++ "."%char :: [d1; d2])).
  { destruct x as [|c x]; [reflexivity|]. simpl in Hx.
    apply andb_prop in Hx. destruct Hx as [Hc _].
    destruct (Hd c Hc) as (_ & E1 & E2). simpl. now rewrite E1, E2. }
  rewrite Hs, span_digits_stop by (assumption || reflexivity).
  cbn [all_digits forallb]. rewrite H1, H2. cbn [andb negb orb].
  replace (length x + length [d1; d2] =? 0) with false
    by (symmetry; apply Nat.eqb_neq; simpl; lia).
  eexists. reflexivity.
Qed.

Lemma isspace_lower c : isspace c = true -> lower_chr c = c.
Proof.
  destruct c as [[] [] [] [] [] [] [] []]; intros H;
    try discriminate H; reflexivity.
Qed.

Lemma isspace_lower_chr c : isspace (lower_chr c) = false -> isspace c = false.
Proof.
  intros H. destruct (isspace c) eqn:E; [|reflexivity].
  now rewrite (isspace_lower c E), E in H.
Qed.

(** A text that is solid once lowered is solid, and [strip] leaves it as
    it is. *)
Lemma solid_lower g :
  solid (lower g) = true -> strip g = g /\ 2 < length g.
Proof.
  destruct g as [|c t]; [discriminate|].
  unfold solid, lower. rewrite length_map. cbn [map].
  change (lower_chr c :: map lower_chr t) with (map lower_chr (c :: t)).
  rewrite <- map_rev.
  destruct (rev (c :: t)) as [|l t'] eqn:Er; [discriminate|].
  cbn [map]. intros H.
  apply andb_prop in H. destruct H as [H Hlen].
  apply andb_prop in H. destruct H as [Hc Hl].
  apply negb_true_iff, isspace_lower_chr in Hc.
  apply negb_true_iff, isspace_lower_chr in Hl.
  split; [|now apply Nat.ltb_lt].
  unfold strip, strip_with. cbn [drop_while]. rewrite Hc, Er.
  cbn [drop_while]. rewrite Hl, <- Er. apply rev_involutive.
Qed.

Lemma float_raises s e : float s = Raise e -> e = ValueError s.
Proof.
  unfold float.
  destruct (split_sign (num_strip s)) as [neg body].
  destruct (span_digits body) as [ip r].
  destruct (match r with [] => _ | _ => _ end) as [fp ok].
  destruct (_ || _)%bool; [now intros [= <-] | discriminate].
Qed.

(** [int] of a text without a minus sign is not negative. *)
Lemma int_nonneg py s z :
  int py s = Ok z -> forallb not_minus s = true -> (0 <= z)%Z.
Proof.
  unfold int. intros H Hs.
  destruct (split_sign (num_strip s)) as [neg body] eqn:Es.
  apply split_sign_spec in Es. destruct Es as [Hneg _].
  assert (neg = false) as ->.
  { destruct neg; [|reflexivity]. specialize (Hneg eq_refl).
    apply strip_with_incl in Hneg.
    rewrite forallb_forall in Hs. now apply Hs in Hneg. }
  destruct (all_digits body) eqn:Hd; simpl in H; [|discriminate].
  destruct (length body =? 0); [discriminate|].
  destruct (int_max_str_digits py) as [n|].
  - destruct (n <? length body); [discriminate|].
    injection H as <-. now apply digits_val_nonneg.
  - injection H as <-. now apply digits_val_nonneg.
Qed.

End StrFacts.

(* ===================================================================== *)
(** * Properties of the matcher *)
(* ===================================================================== *)

Section MatcherFacts.
Import Py Re.

Variable fl : flags.

(** Induction on the derivation of a match, with the names the proofs
    below use. *)
Ltac induction_on_match :=
  induction 1 as [s | s | c s x xs Hr Hc
                  | r1 r2 s s1 s2 M1 IH1 M2 IH2
                  | r1 r2 s s1 M IH | r1 r2 s s1 M IH
                  | hi r s | lo hi r s s1 s2 Hit M1 IH1 Hlt M2 IH2
                  | g' r s s1 M IH | s Hb | s Hb].

Lemma orelse_some {A} (a b : option A) (x : A) :
  orelse a b = Some x -> a = Some x \/ b = Some x.
Proof. destruct a; simpl; auto. Qed.

Lemma rep_loop_sound body k r :
  (forall s k' out, body s k' = Some out ->
     exists s1, matches fl r s s1 /\ k' s1 = Some out) ->
  forall fuel lo hi s out,
    rep_loop body k fuel lo hi s = Some out ->
    exists s1, matches fl (Rep lo hi r) s s1 /\ k s1 = Some out.
Proof.
  intros Hbody fuel.
  assert (Hstop : forall lo hi s out,
            (if lo =? 0 then k s else None) = Some out ->
            exists s1, matches fl (Rep lo hi r) s s1 /\ k s1 = Some out).
  { intros lo hi s out H. destruct lo; simpl in H; [|discriminate].
    exists s. split; [constructor | assumption]. }
  induction fuel as [|fuel IH]; intros lo hi s out H; simpl in H.
  - now apply Hstop.
  - destruct (may_iterate hi) eqn:Hit; [|now apply Hstop].
    apply orelse_some in H. destruct H as [H|H]; [|now apply Hstop].
    apply Hbody in H. destruct H as (s1 & Hm & Hk).
    destruct (length (rest s1) <? length (rest s)) eqn:Hlt; [|discriminate].
    apply IH in Hk. destruct Hk as (s2 & Hm2 & Hk2).
    exists s2. split; [|assumption].
    apply Nat.ltb_lt in Hlt.
    eapply M_rep_iter; eauto.
Qed.

(** The matcher only finds matches. *)
Lemma run_sound r : forall s k out,
  run fl r s k = Some out ->
  exists s1, matches fl r s s1 /\ k s1 = Some out.
Proof.
  induction r as [| c | r1 IH1 r2 IH2 | r1 IH1 r2 IH2 | lo hi r IH
                  | g r IH | | |]; intros s k out H.
  - exists s; split; [constructor | assumption].
  - simpl in H. destruct (rest s) as [|x xs] eqn:Hr; [discriminate|].
    destruct (cls_mem fl c x) eqn:Hc; [|discriminate].
    exists (advance s). split; [econstructor; eauto | assumption].
  - simpl in H. apply IH1 in H. destruct H as (s1 & Hm1 & H).
    apply IH2 in H. destruct H as (s2 & Hm2 & H).
    exists s2. split; [econstructor; eauto | assumption].
  - simpl in H. apply orelse_some in H. destruct H as [H|H].
    + apply IH1 in H. destruct H as (s1 & Hm & H).
      exists s1. split; [now apply M_alt_l | assumption].
    + apply IH2 in H. destruct H as (s1 & Hm & H).
      exists s1. split; [now apply M_alt_r | assumption].
  - exact (rep_loop_sound (run fl r) k r IH _ _ _ _ _ H).
  - simpl in H. apply IH in H. destruct H as (s1 & Hm & H).
    exists (set_cap g (consumed s s1) s1).
    split; [now constructor | assumption].
  - simpl in H. destruct (at_boundary s) eqn:Hb; [|discriminate].
    exists s; split; [now constructor | assumption].
  - simpl in H. destruct (at_bol fl s) eqn:Hb; [|discriminate].
    exists s; split; [now constructor | assumption].
  - exists s; split; [constructor | assumption].
Qed.

Lemma in_all_chars (x : ascii) : In x all_chars.
Proof.
  unfold all_chars. apply in_map_iff. exists (nat_of_ascii x). split.
  - apply ascii_nat_embedding.
  - apply in_seq. pose proof (nat_ascii_bounded x). lia.
Qed.

Lemma chars_in_chr P c x :
  chars_in fl P (Chr c) = true -> cls_mem fl c x = true -> P x = true.
Proof.
  intros H Hc. cbn [chars_in] in H.
  pose proof (proj1 (forallb_forall _ _) H x (in_all_chars x)) as Hx.
  cbv beta in Hx. rewrite Hc in Hx. exact Hx.
Qed.

Lemma consumed_app (s s1 : st) (w : str) :
  rest s = w ++ rest s1 -> consumed s s1 = w.
Proof.
  intros H. unfold consumed. rewrite H, length_app.
  replace (length w + length (rest s1) - length (rest s1)) with (length w)
    by lia.
  rewrite firstn_app, Nat.sub_diag, firstn_all. simpl. apply app_nil_r.
Qed.

(** A match consumes a prefix of the text that was left, made of
    characters the sets of the pattern admit. *)
Lemma matches_consumes P r s s1 :
  matches fl r s s1 ->
  exists w, rest s = w ++ rest s1 /\
            (chars_in fl P r = true -> forallb P w = true).
Proof.
  induction_on_match.
  - exists []. auto.
  - exists []. auto.
  - exists [x]. unfold advance. rewrite Hr. simpl. split; [reflexivity|].
    intros H. rewrite (chars_in_chr P c x H Hc). reflexivity.
  - destruct IH1 as (w1 & E1 & P1), IH2 as (w2 & E2 & P2).
    exists (w1 ++ w2). split.
    + rewrite E1, E2. apply app_assoc.
    + simpl. intros H. apply andb_prop in H. destruct H.
      rewrite forallb_app, P1, P2; auto.
  - destruct IH as (w & E & Pw). exists w. split; [assumption|].
    simpl. intros H. apply andb_prop in H. tauto.
  - destruct IH as (w & E & Pw). exists w. split; [assumption|].
    simpl. intros H. apply andb_prop in H. tauto.
  - exists []. auto.
  - destruct IH1 as (w1 & E1 & P1), IH2 as (w2 & E2 & P2).
    exists (w1 ++ w2). split.
    + rewrite E1, E2. apply app_assoc.
    + simpl in *. intros H. rewrite forallb_app, P1, P2; auto.
  - destruct IH as (w & E & Pw). exists w. auto.
  - exists []. auto.
  - exists []. auto.
Qed.

(** A match keeps the captured groups within the characters their sets
    admit. *)
Lemma matches_caps g P r s s1 :
  matches fl r s s1 ->
  group_chars_in fl g P r = true ->
  caps_ok g P (caps s) -> caps_ok g P (caps s1).
Proof.
  induction_on_match; simpl; intros Hg Hc0;
    try assumption.
  - unfold advance. rewrite Hr. exact Hc0.
  - apply andb_prop in Hg. destruct Hg. auto.
  - apply andb_prop in Hg. destruct Hg. auto.
  - apply andb_prop in Hg. destruct Hg. auto.
  - auto.
  - apply andb_prop in Hg. destruct Hg as [Hg1 Hg2].
    intros w Hw. simpl in Hw.
    destruct (g =? g') eqn:E.
    + injection Hw as <-.
      destruct (matches_consumes P _ _ _ M) as (w & Ew & Pw).
      rewrite (consumed_app _ _ _ Ew). auto.
    + exact (IH Hg2 Hc0 w Hw).
Qed.

Lemma matches_seq_inv r1 r2 s s2 :
  matches fl (Seq r1 r2) s s2 ->
  exists s1, matches fl r1 s s1 /\ matches fl r2 s1 s2.
Proof. inversion 1; subst. eauto. Qed.

Lemma matches_chr_inv c s s1 :
  matches fl (Chr c) s s1 ->
  exists x, rest s = x :: rest s1 /\ cls_mem fl c x = true.
Proof.
  inversion 1 as [| |? ? x xs Hr Hc| | | | | | | |]; subst.
  exists x. unfold advance. rewrite Hr. auto.
Qed.

Lemma matches_group_inv g r s s' :
  matches fl (Group g r) s s' ->
  exists s1, matches fl r s s1 /\ s' = set_cap g (consumed s s1) s1.
Proof. inversion 1; subst. eauto. Qed.

Lemma matches_rep_inv lo hi r s s2 :
  matches fl (Rep lo hi r) s s2 ->
  (lo = 0 /\ s2 = s) \/
  (may_iterate hi = true /\
   exists s1, matches fl r s s1 /\
              matches fl (Rep (pred lo) (dec hi) r) s1 s2).
Proof. inversion 1; subst; eauto. Qed.

(** A match consumes at least [min_len] characters. *)
Lemma matches_min_len r s s1 :
  matches fl r s s1 -> length (rest s1) + min_len r <= length (rest s).
Proof.
  induction_on_match; cbn [min_len]; try lia.
  - unfold advance. rewrite Hr. simpl. lia.
  - cbn [min_len] in IH2. destruct lo; simpl in *; lia.
  - simpl. lia.
Qed.

Lemma lookup_set_cap g g' w s :
  lookup g (caps (set_cap g' w s)) =
  if g =? g' then Some w else lookup g (caps s).
Proof. reflexivity. Qed.

(** A group that every match goes through is captured, and a captured
    group stays captured. *)
Lemma matches_sets_group g r s s1 :
  matches fl r s s1 ->
  lookup g (caps s) <> None \/ sets_group g r = true ->
  lookup g (caps s1) <> None.
Proof.
  induction_on_match; cbn [sets_group];
    intros [H|H]; try discriminate; try assumption.
  - unfold advance. now rewrite Hr.
  - apply IH2. left. apply IH1. now left.
  - apply orb_prop in H. destruct H as [H|H].
    + apply IH2. left. apply IH1. now right.
    + apply IH2. now right.
  - apply IH. now left.
  - apply andb_prop in H. apply IH. right. tauto.
  - apply IH. now left.
  - apply andb_prop in H. apply IH. right. tauto.
  - apply IH2. left. apply IH1. now left.
  - apply andb_prop in H. destruct H as [_ H].
    apply IH2. left. apply IH1. now right.
  - rewrite lookup_set_cap. destruct (g =? g'); [discriminate|].
    apply IH. now left.
  - rewrite lookup_set_cap. destruct (g =? g'); [discriminate|].
    apply IH. right. exact H.
Qed.

(** What the groups numbered [g] capture is in the language of their
    patterns. *)
Lemma matches_caps_lang g L r s s1 :
  matches fl r s s1 ->
  group_lang fl g L r ->
  (forall w, lookup g (caps s) = Some w -> L w) ->
  forall w, lookup g (caps s1) = Some w -> L w.
Proof.
  unfold group_lang.
  induction_on_match; cbn [group_bodies];
    intros Hg Hc0; try assumption.
  - unfold advance. rewrite Hr. exact Hc0.
  - apply Forall_app in Hg. destruct Hg. auto.
  - apply Forall_app in Hg. destruct Hg. auto.
  - apply Forall_app in Hg. destruct Hg. auto.
  - auto.
  - apply Forall_app in Hg. destruct Hg as [Hg1 Hg2].
    intros w Hw. rewrite lookup_set_cap in Hw.
    destruct (g =? g') eqn:E.
    + injection Hw as <-. inversion Hg1 as [|? ? Hb _]; subst. auto.
    + exact (IH Hg2 Hc0 w Hw).
Qed.

Lemma chr_mem_lower c x :
  cls_mem fl (CChar c) x = true -> lower_chr x = lower_chr c.
Proof.
  simpl. destruct (ignorecase fl); intros H; apply Ascii.eqb_eq in H;
    now rewrite H.
Qed.

(** A literal word matches itself, but for the case of the letters. *)
Lemma word_shape l : forall a b,
  matches fl (cat (map chr l)) a b ->
  exists w, rest a = w ++ rest b /\ lower w = lower l.
Proof.
  induction l as [|c l IH]; intros a b H.
  - inversion H; subst. now exists [].
  - destruct l as [|c' t].
    + cbn [map cat] in H.
      destruct (matches_chr_inv _ _ _ H) as (x & E & Hc).
      exists [x]. split; [exact E|]. simpl.
      now rewrite (chr_mem_lower _ _ Hc).
    + change (cat (map chr (c :: c' :: t)))
        with (Seq (chr c) (cat (map chr (c' :: t)))) in H.
      apply matches_seq_inv in H. destruct H as (s1 & M1 & M2).
      destruct (matches_chr_inv _ _ _ M1) as (x & E & Hc).
      destruct (IH _ _ M2) as (w & Ew & Hw).
      exists (x :: w). split.
      * rewrite E, Ew. reflexivity.
      * unfold lower in *. cbn [map].
        rewrite (chr_mem_lower _ _ Hc). f_equal. exact Hw.
Qed.

Lemma alts_shape rs : forall a b,
  rs <> [] -> matches fl (alts rs) a b ->
  exists r, In r rs /\ matches fl r a b.
Proof.
  induction rs as [|r rs IH]; intros a b Hne H; [congruence|].
  destruct rs as [|r' t].
  - exists r. split; [now left | exact H].
  - change (alts (r :: r' :: t)) with (Alt r (alts (r' :: t))) in H.
    inversion H; subst.
    + exists r. split; [now left | assumption].
    + destruct (IH a b) as (r0 & Hin & Hm); [discriminate | assumption |].
      exists r0. split; [now right | assumption].
Qed.

(** An alternation of words matches one of them, but for the case. *)
Lemma words_shape ws a b :
  ws <> [] -> matches fl (words ws) a b ->
  In (lower (consumed a b)) (map (fun w => lower (lit w)) ws).
Proof.
  intros Hne H. unfold words in H.
  apply alts_shape in H; [|now destruct ws].
  destruct H as (r & Hin & Hm).
  apply in_map_iff in Hin. destruct Hin as (w0 & <- & Hin).
  apply word_shape in Hm. destruct Hm as (w & Ew & Hw).
  rewrite (consumed_app _ _ _ Ew), Hw.
  apply in_map_iff. now exists w0.
Qed.

(** ** From the matcher to [search] and [findall] *)

Lemma match_at_found r p t start m :
  match_at fl r p t start = Some m -> found fl r m.
Proof.
  unfold match_at. intros H.
  destruct (run fl r _ _) as [s1|] eqn:Hrun; [|discriminate].
  injection H as <-.
  apply run_sound in Hrun. destruct Hrun as (s2 & Hm & E).
  injection E as ->.
  exists p, t, s1. cbn [m_caps m_rest m_group0].
  repeat split; try assumption.
  destruct (matches_consumes (fun _ => true) _ _ _ Hm) as (w & Ew & _).
  rewrite (consumed_app _ _ _ Ew). exact Ew.
Qed.

Lemma search_from_found r : forall t p start m,
  search_from fl r p t start = Some m -> found fl r m.
Proof.
  induction t as [|c t IH]; intros p start m H; simpl in H;
    destruct (match_at fl r p _ start) as [m'|] eqn:Hm.
  - injection H as <-. eapply match_at_found; eauto.
  - discriminate.
  - injection H as <-. eapply match_at_found; eauto.
  - eapply IH; eauto.
Qed.

Lemma match_at_text r p t start m :
  match_at fl r p t start = Some m -> t = m_group0 m ++ m_rest m.
Proof.
  unfold match_at. intros H.
  destruct (run fl r _ _) as [s1|] eqn:Hrun; [|discriminate].
  injection H as <-. cbn [m_group0 m_rest].
  apply run_sound in Hrun. destruct Hrun as (s2 & Hm & E).
  injection E as ->.
  destruct (matches_consumes (fun _ => true) _ _ _ Hm) as (w & Ew & _).
  rewrite (consumed_app _ _ _ Ew). exact Ew.
Qed.

(** [search] finds its match inside the text. *)
Lemma search_from_text r : forall t p start m,
  search_from fl r p t start = Some m ->
  exists pre, t = pre ++ m_group0 m ++ m_rest m.
Proof.
  induction t as [|c t IH]; intros p start m H; simpl in H;
    destruct (match_at fl r p _ start) as [m'|] eqn:Hm.
  - injection H as <-. exists []. eapply match_at_text; eauto.
  - discriminate.
  - injection H as <-. exists []. eapply match_at_text; eauto.
  - apply IH in H. destruct H as (pre & E). exists (c :: pre).
    simpl. now rewrite <- E.
Qed.

Lemma matches_from_found r : forall fuel p t start m,
  In m (matches_from fuel fl r p t start) -> found fl r m.
Proof.
  induction fuel as [|fuel IH]; intros p t start m H; simpl in H.
  - contradiction.
  - destruct (search_from fl r p t start) as [m0|] eqn:Hs; [|contradiction].
    destruct H as [<-|H].
    + eapply search_from_found; eauto.
    + destruct (m_group0 m0); [destruct (m_rest m0)|];
        try contradiction; eapply IH; eauto.
Qed.

Lemma found_caps g P r m :
  found fl r m -> group_chars_in fl g P r = true -> caps_ok g P (m_caps m).
Proof.
  intros (p & t & s1 & Hm & Ec & _) Hg. rewrite Ec.
  apply (matches_caps g P _ _ _ Hm Hg). intros w Hw. discriminate.
Qed.

Lemma found_sets_group g r m :
  found fl r m -> sets_group g r = true -> lookup g (m_caps m) <> None.
Proof.
  intros (p & t & s1 & Hm & Ec & _) Hg. rewrite Ec.
  apply (matches_sets_group g _ _ _ Hm). now right.
Qed.

Lemma found_lang g L r m w :
  found fl r m -> group_lang fl g L r ->
  lookup g (m_caps m) = Some w -> L w.
Proof.
  intros (p & t & s1 & Hm & Ec & _) Hg. rewrite Ec.
  apply (matches_caps_lang g L _ _ _ Hm Hg). intros w' Hw. discriminate.
Qed.

End MatcherFacts.

Section CompiledFacts.
Import Py Re.

Lemma compile_inv py fl r c :
  compile py fl r = Ok c ->
  snd c = r /\ (fst c = fl \/ fst c = with_ignorecase fl).
Proof.
  unfold compile, with_ignorecase.
  destruct (match r with Seq FlagI r' => _ | _ => _ end) as [leading later].
  destruct later.
  - destruct (inline_flag_error py); [discriminate|].
    intros H. injection H as <-. simpl. auto.
  - intros H. injection H as <-. simpl. destruct leading; auto.
Qed.

(** A match [re.search] returns is a match of the pattern, under the flags
    given or under these with IGNORECASE. *)
Lemma re_search_found py fl r t m :
  re_search py fl r t = Ok (Some m) ->
  found fl r m \/ found (with_ignorecase fl) r m.
Proof.
  unfold re_search, bind. intros H.
  destruct (compile py fl r) as [c|] eqn:Hc; [|discriminate].
  apply compile_inv in Hc. destruct Hc as [Er Ef].
  injection H as H. rewrite Er in H. unfold search in H.
  apply search_from_found in H.
  destruct Ef as [Ef|Ef]; rewrite Ef in H; auto.
Qed.

(** Each text [re.findall] returns is group 1 of a match of the pattern. *)
Lemma re_findall1_found py fl r t l w :
  re_findall1 py fl r t = Ok l ->
  In w l ->
  exists m, (found fl r m \/ found (with_ignorecase fl) r m) /\
            w = match group m 1 with Some g => g | None => [] end.
Proof.
  unfold re_findall1, bind. intros H Hw.
  destruct (compile py fl r) as [c|] eqn:Hc; [|discriminate].
  apply compile_inv in Hc. destruct Hc as [Er Ef].
  injection H as <-. rewrite Er in Hw. unfold findall1 in Hw.
  apply in_map_iff in Hw. destruct Hw as (m & <- & Hin).
  apply matches_from_found in Hin.
  exists m. split; [|reflexivity].
  destruct Ef as [Ef|Ef]; rewrite Ef in Hin; auto.
Qed.

(** The text of a captured group of a [re.search] match is made of
    characters the group admits. *)
Lemma re_search_group py fl r t m g P w :
  re_search py fl r t = Ok (Some m) ->
  group_within fl (S g) P r ->
  group m (S g) = Some w ->
  forallb P w = true.
Proof.
  intros H [H1 H2] Hw.
  destruct (re_search_found _ _ _ _ _ H) as [Hf|Hf].
  - exact (found_caps _ _ _ _ _ Hf H1 w Hw).
  - exact (found_caps _ _ _ _ _ Hf H2 w Hw).
Qed.

(** A group every match goes through is never [None]. *)
Lemma re_search_sets_group py fl r t m g :
  re_search py fl r t = Ok (Some m) ->
  sets_group (S g) r = true ->
  group m (S g) <> None.
Proof.
  intros H Hg.
  destruct (re_search_found _ _ _ _ _ H) as [Hf|Hf];
    exact (found_sets_group _ _ _ _ Hf Hg).
Qed.

Lemma re_search_lang py fl r t m g L w :
  re_search py fl r t = Ok (Some m) ->
  (forall fl', group_lang fl' (S g) L r) ->
  group m (S g) = Some w -> L w.
Proof.
  intros H Hg Hw.
  destruct (re_search_found _ _ _ _ _ H) as [Hf|Hf];
    exact (found_lang _ _ _ _ _ _ Hf (Hg _) Hw).
Qed.


End CompiledFacts.



(* ===================================================================== *)
(** * Properties of [strptime] *)
(* ===================================================================== *)

Section DateFacts.
Import Py Re Datetime.

Lemma slash_only x : cls_mem IGNORECASE (CChar "/") x = true -> x = "/"%char.
Proof.
  destruct x as [[] [] [] [] [] [] [] []]; intros H;
    try discriminate H; reflexivity.
Qed.

Lemma digits_no_slash w : forallb isdigit w = true -> ~ In "/"%char w.
Proof.
  rewrite forallb_forall. intros H Hin. apply H in Hin. discriminate.
Qed.

(** What follows the last slash of a text is determined by the text. *)
Lemma after_last_slash : forall l1 l2 y1 y2 : str,
  l1 ++ "/"%char :: y1 = l2 ++ "/"%char :: y2 ->
  ~ In "/"%char y1 -> ~ In "/"%char y2 -> y1 = y2.
Proof.
  induction l1 as [|c l1 IH]; intros [|c' l2] y1 y2 E H1 H2; simpl in E.
  - now injection E.
  - injection E as _ E. exfalso. apply H1. rewrite E.
    apply in_or_app. right. now left.
  - injection E as _ E. exfalso. apply H2. rewrite <- E.
    apply in_or_app. right. now left.
  - injection E as _ E. eapply IH; eauto.
Qed.

Lemma strptime_raises s fmt e :
  strptime s fmt = Raise e -> e = ValueError s.
Proof.
  unfold strptime.
  destruct (match_ IGNORECASE (format_re fmt) s) as [m|];
    [|now intros [= <-]].
  destruct (m_rest m); [|now intros [= <-]].
  destruct (_ && _)%bool; [discriminate | now intros [= <-]].
Qed.

(** A text that [%m/%d/%Y] accepts ends with a slash and at least four
    digits. *)
Lemma strptime_m_d_Y_year s d :
  strptime s fmt_m_d_Y_slash = Ok d ->
  exists pre w, s = pre ++ "/"%char :: w /\
                forallb isdigit w = true /\ 4 <= length w.
Proof.
  unfold strptime. intros H.
  destruct (match_ IGNORECASE (format_re fmt_m_d_Y_slash) s) as [m|] eqn:Hm;
    [|discriminate].
  destruct (m_rest m) eqn:Hr; [|discriminate]. clear H.
  unfold match_, match_at in Hm.
  destruct (run IGNORECASE _ _ _) as [s5|] eqn:Hrun; [|discriminate].
  injection Hm as <-. cbn [m_rest] in Hr.
  apply run_sound in Hrun. destruct Hrun as (s5' & Hrun & E).
  injection E as ->.
  unfold format_re, fmt_m_d_Y_slash in Hrun. cbn [map cat] in Hrun.
  apply matches_seq_inv in Hrun. destruct Hrun as (s1 & M1 & Hrun).
  apply matches_seq_inv in Hrun. destruct Hrun as (s2 & M2 & Hrun).
  apply matches_seq_inv in Hrun. destruct Hrun as (s3 & M3 & Hrun).
  apply matches_seq_inv in Hrun. destruct Hrun as (s4 & M4 & M5).
  destruct (matches_consumes _ (fun _ => true) _ _ _ M1) as (w1 & E1 & _).
  destruct (matches_chr_inv _ _ _ _ M2) as (x2 & E2 & _).
  destruct (matches_consumes _ (fun _ => true) _ _ _ M3) as (w3 & E3 & _).
  destruct (matches_chr_inv _ _ _ _ M4) as (x4 & E4 & C4).
  apply slash_only in C4. subst x4.
  destruct (matches_consumes _ isdigit _ _ _ M5) as (w5 & E5 & D5).
  pose proof (matches_min_len _ _ _ _ M5) as L5.
  rewrite Hr in *. rewrite app_nil_r in E5.
  cbn [rest] in E1. exists (w1 ++ x2 :: w3), w5.
  split; [|split].
  - rewrite E1, E2, E3, E4, E5, <- app_assoc. reflexivity.
  - apply D5. reflexivity.
  - rewrite E5 in L5. cbn in L5. lia.
Qed.

(** [%m/%d/%Y] rejects a text whose year, after the last slash, has
    fewer than four digits. *)
Lemma strptime_short_year pre y :
  forallb isdigit y = true -> length y < 4 ->
  strptime (pre ++ "/"%char :: y) fmt_m_d_Y_slash
  = Raise (ValueError (pre ++ "/"%char :: y)).
Proof.
  intros Hy Hlen.
  destruct (strptime _ fmt_m_d_Y_slash) as [d|e] eqn:H.
  - exfalso. apply strptime_m_d_Y_year in H.
    destruct H as (pre' & w & E & Hw & Lw).
    apply after_last_slash in E; auto using digits_no_slash.
    subst w. lia.
  - apply strptime_raises in H. now subst e.
Qed.

Lemma separator_only c x :
  c = "/"%char \/ c = "-"%char ->
  lower_chr x = lower_chr c -> x = c.
Proof.
  intros [->| ->]; destruct x as [[] [] [] [] [] [] [] []]; intros H;
    try discriminate H; reflexivity.
Qed.

(** A text that matches the expression of a format holds the literal
    characters of the format, but for the case of the letters. *)
Lemma format_re_literal c : forall fmt a b,
  In (Dlit c) fmt ->
  matches IGNORECASE (format_re fmt) a b ->
  exists w x, rest a = w ++ rest b /\ In x w /\ lower_chr x = lower_chr c.
Proof.
  unfold format_re.
  induction fmt as [|d fmt IH]; intros a b Hin H; [contradiction|].
  destruct fmt as [|d' fmt'].
  - destruct Hin as [->|[]]. cbn [map cat directive_re] in H.
    destruct (matches_chr_inv _ _ _ _ H) as (x & E & Hc).
    exists [x], x. repeat split; [exact E | now left |].
    now apply chr_mem_lower in Hc.
  - change (cat (map directive_re (d :: d' :: fmt')))
      with (Seq (directive_re d) (cat (map directive_re (d' :: fmt'))))
      in H.
    apply matches_seq_inv in H. destruct H as (s1 & M1 & M2).
    destruct (matches_consumes _ (fun _ => true) _ _ _ M1) as (w1 & E1 & _).
    destruct (matches_consumes _ (fun _ => true) _ _ _ M2) as (w2 & E2 & _).
    destruct Hin as [->|Hin].
    + cbn [directive_re] in M1.
      destruct (matches_chr_inv _ _ _ _ M1) as (x & E & Hc).
      exists ([x] ++ w2), x. repeat split.
      * rewrite E, E2. reflexivity.
      * now left.
      * now apply chr_mem_lower in Hc.
    + destruct (IH _ _ Hin M2) as (w & x & E & Hx & Hl).
      exists (w1 ++ w), x. repeat split.
      * rewrite E1, E, app_assoc. reflexivity.
      * apply in_or_app. now right.
      * exact Hl.
Qed.

(** [strptime] accepts no text that lacks a separator of the format. *)
Lemma strptime_needs_separator s fmt c :
  In (Dlit c) fmt -> c = "/"%char \/ c = "-"%char ->
  contains_chr s c = false ->
  strptime s fmt = Raise (ValueError s).
Proof.
  intros Hin Hc Hs.
  destruct (strptime s fmt) as [d|e] eqn:H;
    [|apply strptime_raises in H; now subst e].
  exfalso. unfold strptime in H.
  destruct (match_ IGNORECASE (format_re fmt) s) as [m|] eqn:Hm;
    [|discriminate].
  unfold match_, match_at in Hm.
  destruct (run IGNORECASE _ _ _) as [s1|] eqn:Hrun; [|discriminate].
  apply run_sound in Hrun. destruct Hrun as (s1' & Hrun & E).
  injection E as ->.
  destruct (format_re_literal c fmt _ _ Hin Hrun) as (w & x & E & Hx & Hl).
  apply (separator_only c x Hc) in Hl. subst x.
  cbn [rest] in E.
  assert (Hex : existsb (Ascii.eqb c) s = true).
  { apply existsb_exists. exists c. split; [|apply Ascii.eqb_refl].
    rewrite E. apply in_or_app. now left. }
  unfold contains_chr in Hs. congruence.
Qed.

End DateFacts.

(* ===================================================================== *)
(** * Properties of the extractors *)
(* ===================================================================== *)

Section ExtractorFacts.
Import Py Re Datetime ReceiptProcessor.

Lemma group_str_chars py fl r t m g P w :
  re_search py fl r t = Ok (Some m) ->
  group_within fl (S g) P r ->
  group_str m (S g) = Ok w ->
  forallb P w = true.
Proof.
  intros H Hg Hw. unfold group_str in Hw.
  destruct (group m (S g)) as [w'|] eqn:E; [|discriminate].
  injection Hw as ->. eapply re_search_group; eauto.
Qed.

(** A pattern whose group 1 is always captured and admits no digit never
    gives [parse_total] an amount: [float] rejects the captured text and
    the loop goes on. *)
Lemma parse_total_loop_skips py r more text :
  (exists o, re_search py no_flags r text = Ok o) ->
  group_within no_flags 1 not_digit r ->
  sets_group 1 r = true ->
  parse_total_loop py (r :: more) text = parse_total_loop py more text.
Proof.
  intros [o Hs] Hg Hset. cbn [parse_total_loop]. rewrite Hs. cbn [bind].
  destruct o as [m|]; [|reflexivity].
  pose proof (re_search_sets_group _ _ _ _ _ _ Hs Hset) as Hsome.
  unfold group_str.
  destruct (group m 1) as [g|] eqn:Eg; [|contradiction]. cbn [bind].
  assert (Hd : forallb not_digit g = true).
  { eapply group_str_chars; eauto. unfold group_str. now rewrite Eg. }
  destruct (float (remove_chr "," g)) as [q|e] eqn:Hf; cbn [bind].
  - exfalso. apply (float_has_digit _ _ Hf).
    now apply forallb_remove_chr.
  - apply float_raises in Hf. subst e. reflexivity.
Qed.

(** The two patterns that begin with a label never give the total. *)
Lemma parse_total_labels_skipped py text :
  parse_total_loop py total_patterns text
  = parse_total_loop py [amount_label] text.
Proof.
  unfold total_patterns.
  do 2 (rewrite parse_total_loop_skips;
        [| eexists; reflexivity | split; reflexivity | reflexivity]).
  reflexivity.
Qed.

(** From Python 3.11 on, [parse_total] raises whatever the text. *)
Lemma parse_total_raises_from_3_11 text :
  parse_total Py3_11 text
  = Raise (ReError (lit "global flags not at the start of the expression")).
Proof.
  unfold parse_total. rewrite parse_total_labels_skipped. reflexivity.
Qed.

Lemma point_only fl x : cls_mem fl (CChar ".") x = true -> x = "."%char.
Proof.
  destruct fl as [[] ?];
    destruct x as [[] [] [] [] [] [] [] []]; intros H;
    try discriminate H; reflexivity.
Qed.

(** What [amount] matches is digits and commas, a point and two digits. *)
Lemma amount_shape fl a b :
  matches fl amount a b -> amount_text (consumed a b).
Proof.
  unfold amount. cbn [cat]. intros H.
  apply matches_seq_inv in H. destruct H as (s1 & M1 & H).
  apply matches_seq_inv in H. destruct H as (s2 & M2 & M3).
  destruct (matches_consumes fl (fun c => isdigit c || Ascii.eqb c ",")
              _ _ _ M1) as (w1 & E1 & P1).
  destruct (matches_chr_inv _ _ _ _ M2) as (x & E2 & C2).
  apply point_only in C2. subst x.
  apply matches_rep_inv in M3.
  destruct M3 as [[? _]|(_ & s3 & D1 & M3)]; [discriminate|].
  apply matches_rep_inv in M3.
  destruct M3 as [[? _]|(_ & s4 & D2 & M3)]; [discriminate|].
  apply matches_rep_inv in M3.
  destruct M3 as [[_ ->]|(? & _)]; [|discriminate].
  destruct (matches_chr_inv _ _ _ _ D1) as (d1 & E3 & C3).
  destruct (matches_chr_inv _ _ _ _ D2) as (d2 & E4 & C4).
  exists w1, d1, d2. repeat split; try assumption.
  - apply consumed_app. now rewrite E1, E2, E3, E4, <- app_assoc.
  - apply P1. destruct fl as [[] ?]; reflexivity.
Qed.

Lemma float_amount_text w :
  amount_text w -> exists q, float (remove_chr "," w) = Ok q.
Proof.
  intros (x & d1 & d2 & -> & Hx & H1 & H2).
  assert (Hc : forall d, isdigit d = true ->
                 negb (Ascii.eqb "," d) = true).
  { intros d. destruct d as [[] [] [] [] [] [] [] []]; intros H;
      try discriminate H; reflexivity. }
  unfold remove_chr. rewrite filter_app. cbn [filter].
  rewrite (Hc d1 H1), (Hc d2 H2).
  change (negb (Ascii.eqb "," ".")) with true. cbv iota.
  apply float_decimal; try assumption.
  unfold all_digits. rewrite forallb_forall in *. intros c Hin.
  apply filter_In in Hin. destruct Hin as [Hin Hne].
  specialize (Hx c Hin). cbv beta in Hne, Hx.
  rewrite Ascii.eqb_sym in Hne.
  destruct (Ascii.eqb c ","); [discriminate|].
  now rewrite orb_false_r in Hx.
Qed.

Lemma re_search_returns py fl r t :
  inline_flag_error py = false -> exists o, re_search py fl r t = Ok o.
Proof.
  intros H. unfold re_search, compile. rewrite H.
  destruct (match r with Seq FlagI r' => _ | _ => _ end) as [leading later].
  destruct later; cbn [bind]; eauto.
Qed.

Lemma re_findall1_returns py fl r t :
  inline_flag_error py = false -> exists l, re_findall1 py fl r t = Ok l.
Proof.
  intros H. unfold re_findall1, compile. rewrite H.
  destruct (match r with Seq FlagI r' => _ | _ => _ end) as [leading later].
  destruct later; cbn [bind]; eauto.
Qed.

Lemma amount_label_lang fl : group_lang fl 1 amount_text amount_label.
Proof.
  unfold group_lang. constructor; [|constructor].
  intros a b. apply amount_shape.
Qed.

Lemma amount_pattern_lang fl : group_lang fl 1 amount_text amount_pattern.
Proof.
  unfold group_lang. constructor; [|constructor].
  intros a b. apply amount_shape.
Qed.

(** Before Python 3.11, [parse_total] returns an amount whatever the
    text. *)
Lemma parse_total_returns_before_3_11 py text :
  inline_flag_error py = false -> exists a, parse_total py text = Ok a.
Proof.
  intros Hpy. unfold parse_total. rewrite parse_total_labels_skipped.
  cbn [parse_total_loop].
  destruct (re_search_returns py no_flags amount_label text Hpy)
    as ([m|] & Hs); rewrite Hs; cbn [bind].
  - pose proof (re_search_sets_group _ _ _ _ _ 0 Hs eq_refl) as Hsome.
    unfold group_str.
    destruct (group m 1) as [g|] eqn:Eg; [|contradiction]. cbn [bind].
    destruct (float_amount_text g) as (q & Hq).
    { exact (re_search_lang _ _ _ _ _ _ _ _ Hs amount_label_lang Eg). }
    rewrite Hq. cbn [bind except_ValueError]. eauto.
  - destruct (re_findall1_returns py no_flags amount_pattern text Hpy)
      as (l & Hl); rewrite Hl; cbn [bind].
    destruct l as [|w ws] eqn:El; [eauto|]. rewrite <- El in *.
    assert (Hin : In (last l []) l) by (apply last_in; now rewrite El).
    destruct (re_findall1_found _ _ _ _ _ _ Hl Hin) as (m & Hf & Ew).
    assert (Hsome : group m 1 <> None).
    { destruct Hf as [Hf|Hf];
        exact (found_sets_group _ 1 _ _ Hf eq_refl). }
    destruct (group m 1) as [g|] eqn:Eg; [|contradiction].
    rewrite Ew. apply float_amount_text.
    destruct Hf as [Hf|Hf];
      exact (found_lang _ _ _ _ _ _ Hf (amount_pattern_lang _) Eg).
Qed.

Lemma one_of_solid ws g :
  one_of ws g ->
  forallb (fun w => solid (lower (lit w))) ws = true ->
  strip g = g /\ 2 < length g.
Proof.
  unfold one_of. intros Hin Hall. apply in_map_iff in Hin.
  destruct Hin as (w & E & Hw). rewrite forallb_forall in Hall.
  apply solid_lower. rewrite <- E. now apply Hall.
Qed.

Lemma vendor_label_lang fl : group_lang fl 1 (one_of label_words) vendor_label.
Proof.
  unfold group_lang. constructor; [|constructor].
  intros a b. now apply words_shape.
Qed.

Lemma vendor_greeting_lang fl :
  group_lang fl 1 (one_of greeting_words) vendor_greeting.
Proof.
  unfold group_lang. constructor; [|constructor].
  intros a b. now apply words_shape.
Qed.

(** One turn of the loop of [parse_vendor], for a pattern whose group 1 is
    one of a list of solid words: the loop returns the word. *)
Lemma parse_vendor_loop_word py r more text m ws :
  re_search py MULTILINE r text = Ok (Some m) ->
  sets_group 1 r = true ->
  (forall fl, group_lang fl 1 (one_of ws) r) ->
  forallb (fun w => solid (lower (lit w))) ws = true ->
  exists g, group m 1 = Some g /\ one_of ws g /\
            parse_vendor_loop py (r :: more) text = Ok (Some g).
Proof.
  intros Hs Hset Hlang Hws.
  pose proof (re_search_sets_group _ _ _ _ _ 0 Hs Hset) as Hsome.
  destruct (group m 1) as [g|] eqn:Eg; [|contradiction].
  pose proof (re_search_lang _ _ _ _ _ _ _ _ Hs Hlang Eg) as Hone.
  destruct (one_of_solid _ _ Hone Hws) as [Hstrip Hlen].
  exists g. repeat split; try assumption.
  cbn [parse_vendor_loop]. rewrite Hs. cbn [bind].
  unfold group_str. rewrite Eg. cbn [bind]. rewrite Hstrip.
  apply Nat.ltb_lt in Hlen. now rewrite Hlen.
Qed.

(** When the label pattern matches, [parse_vendor] returns the label. *)
Lemma parse_vendor_label py text m :
  re_search py MULTILINE vendor_label text = Ok (Some m) ->
  exists g, group m 1 = Some g /\ one_of label_words g /\
            parse_vendor py text = Ok g.
Proof.
  intros Hs.
  destruct (parse_vendor_loop_word py _ (tl vendor_patterns) _ _ label_words
              Hs eq_refl vendor_label_lang eq_refl) as (g & Eg & Hone & E).
  exists g. repeat split; try assumption.
  unfold parse_vendor. unfold vendor_patterns in *. cbn [tl] in E.
  now rewrite E.
Qed.

(** When the label pattern does not match and the greeting pattern does,
    [parse_vendor] returns the greeting. *)
Lemma parse_vendor_greeting py text m :
  re_search py MULTILINE vendor_label text = Ok None ->
  re_search py MULTILINE vendor_greeting text = Ok (Some m) ->
  exists g, group m 1 = Some g /\ one_of greeting_words g /\
            parse_vendor py text = Ok g.
Proof.
  intros Hn Hs.
  destruct (parse_vendor_loop_word py _ (tl (tl vendor_patterns)) _ _
              greeting_words Hs eq_refl vendor_greeting_lang eq_refl)
    as (g & Eg & Hone & E).
  exists g. repeat split; try assumption.
  unfold parse_vendor. unfold vendor_patterns in *. cbn [tl] in E.
  cbn [parse_vendor_loop] in *. rewrite Hn. cbn [bind].
  now rewrite E.
Qed.

(** A match without slash and dash leaves [parsed] unbound: none of the
    four formats of the [else] branch can accept it. *)
Lemma parse_match_unbound date_str :
  contains_chr date_str "/" = false ->
  contains_chr date_str "-" = false ->
  parse_match date_str = Raise (UnboundLocalError (lit "parsed")).
Proof.
  intros Hs Hd. unfold parse_match. rewrite Hs, Hd. cbn [andb try_formats].
  rewrite (strptime_needs_separator date_str fmt_m_d_Y_dash "-"),
    (strptime_needs_separator date_str fmt_d_m_Y_dash "-"),
    (strptime_needs_separator date_str fmt_m_d_y_slash "/"),
    (strptime_needs_separator date_str fmt_d_m_y_slash "/");
    try assumption; try (simpl; now auto).
Qed.

(** The text of a match holds only characters the pattern admits. *)
Lemma re_search_group0 py fl r t m P :
  re_search py fl r t = Ok (Some m) ->
  chars_in fl P r = true ->
  chars_in (with_ignorecase fl) P r = true ->
  forallb P (m_group0 m) = true.
Proof.
  intros H H1 H2.
  assert (G : forall fl', found fl' r m -> chars_in fl' P r = true ->
                          forallb P (m_group0 m) = true).
  { intros fl' (p & t' & s1 & Hm & _ & Er & Et) Hc.
    destruct (matches_consumes fl' P _ _ _ Hm) as (w & Ew & Pw).
    cbn [rest] in Ew. rewrite Et, Er in Ew.
    apply app_inv_tail in Ew. rewrite Ew. auto. }
  destruct (re_search_found _ _ _ _ _ H) as [Hf|Hf]; eauto.
Qed.

Lemma no_separator_spec s :
  forallb no_separator s = true ->
  contains_chr s "/" = false /\ contains_chr s "-" = false.
Proof.
  unfold contains_chr. induction s as [|c s IH]; cbn [existsb forallb];
    [auto|].
  intros H. apply andb_prop in H. destruct H as [Hc Hs].
  destruct (IH Hs) as [-> ->]. unfold no_separator in Hc.
  apply andb_prop in Hc. destruct Hc as [H1 H2].
  rewrite (Ascii.eqb_sym "/" c), (Ascii.eqb_sym "-" c).
  apply negb_true_iff in H1, H2. now rewrite H1, H2.
Qed.

(** A date written with the name of the month makes [parse_date] raise:
    when the three numeric patterns find nothing and one of the two
    month-name patterns finds a date, [parsed] is unbound at the
    [return]. *)
Lemma parse_date_month_name_raises py text m :
  re_search py IGNORECASE slash_date text = Ok None ->
  re_search py IGNORECASE dash_date text = Ok None ->
  re_search py IGNORECASE iso_date text = Ok None ->
  re_search py IGNORECASE month_day_date text = Ok (Some m) \/
  (re_search py IGNORECASE month_day_date text = Ok None /\
   re_search py IGNORECASE day_month_date text = Ok (Some m)) ->
  parse_date py text = Raise (UnboundLocalError (lit "parsed")).
Proof.
  intros H1 H2 H3 H.
  unfold parse_date, date_patterns. cbn [parse_date_loop].
  rewrite H1, H2, H3. cbn [bind].
  destruct H as [H4|[H4 H5]]; rewrite H4; cbn [bind].
  - destruct (no_separator_spec (m_group0 m)) as [Hs Hd].
    { eapply re_search_group0; eauto; reflexivity. }
    now rewrite (parse_match_unbound _ Hs Hd).
  - rewrite H5. cbn [bind].
    destruct (no_separator_spec (m_group0 m)) as [Hs Hd].
    { eapply re_search_group0; eauto; reflexivity. }
    now rewrite (parse_match_unbound _ Hs Hd).
Qed.





Lemma find_method_first text_lower m : forall before after,
  occurs_in m text_lower ->
  (forall m', In m' before -> ~ occurs_in m' text_lower) ->
  find_method (before ++ m :: after) text_lower = capitalize m.
Proof.
  induction before as [|b before IH]; intros after Hm Hb; simpl.
  - apply contains_spec in Hm. now rewrite Hm.
  - destruct (contains text_lower b) eqn:E.
    + apply contains_spec in E. exfalso. apply (Hb b); [now left | exact E].
    + apply IH; [assumption|]. intros m' Hin. apply Hb. now right.
Qed.

Lemma find_method_none text_lower : forall ms,
  (forall m, In m ms -> ~ occurs_in m text_lower) ->
  find_method ms text_lower = lit "Unknown".
Proof.
  induction ms as [|b ms IH]; intros H; simpl; [reflexivity|].
  destruct (contains text_lower b) eqn:E.
  - apply contains_spec in E. exfalso. apply (H b); [now left | exact E].
  - apply IH. intros m Hin. apply H. now right.
Qed.

Lemma price_nonneg g q :
  price g = Ok q -> forallb not_minus g = true -> (0 <= q)%Q.
Proof.
  unfold price. intros H Hg. apply (float_nonneg _ _ H).
  now do 2 apply forallb_remove_chr.
Qed.

Lemma item_pattern_no_minus g :
  In g [1; 2; 3] -> group_within no_flags (S g) not_minus item_pattern.
Proof.
  simpl. intros [<-|[<-|[<-|[]]]]; split; reflexivity.
Qed.

Lemma strip_trimmed s : trimmed (strip s).
Proof. apply strip_with_ends. Qed.

Lemma parse_line_ok py line i :
  parse_line py line = Ok (Some i) -> item_ok i.
Proof.
  unfold parse_line. intros H.
  destruct (re_search py no_flags item_pattern line) as [[m|]|] eqn:Hs;
    cbn [bind] in H; try discriminate.
  destruct (group_str m 1) as [g1|] eqn:H1; cbn [bind] in H;
    [|discriminate].
  destruct (group_str m 2) as [g2|] eqn:H2; cbn [bind] in H;
    [|discriminate].
  destruct (int py g2) as [qty|] eqn:Hq; cbn [bind] in H; [|discriminate].
  destruct (group_str m 3) as [g3|] eqn:H3; cbn [bind] in H;
    [|discriminate].
  destruct (price g3) as [up|] eqn:Hu; cbn [bind] in H; [|discriminate].
  destruct (group_str m 4) as [g4|] eqn:H4; cbn [bind] in H;
    [|discriminate].
  destruct (price g4) as [tp|] eqn:Ht; cbn [bind] in H; [|discriminate].
  injection H as <-. unfold item_ok. cbn [description quantity unit_price
    total_price category].
  assert (G : forall g w, In g [1; 2; 3] -> group_str m (S g) = Ok w ->
                          forallb not_minus w = true).
  { intros g w Hin Hw.
    exact (group_str_chars _ _ _ _ _ _ _ _ Hs
             (item_pattern_no_minus g Hin) Hw). }
  repeat split.
  - apply strip_trimmed.
  - apply strip_trimmed.
  - apply (int_nonneg _ _ _ Hq), (G 1 g2); simpl; auto.
  - apply (price_nonneg _ _ Hu), (G 2 g3); simpl; auto.
  - apply (price_nonneg _ _ Ht), (G 3 g4); simpl; auto.
Qed.

Lemma parse_lines_ok py : forall lines acc its,
  parse_lines py lines acc = Ok its ->
  Forall item_ok acc -> Forall item_ok its.
Proof.
  induction lines as [|line more IH]; intros acc its H Hacc;
    cbn [parse_lines] in H.
  - now injection H as <-.
  - destruct (parse_line py line) as [[i|]|] eqn:Hl; cbn [bind] in H;
      try discriminate.
    + apply (IH _ _ H). apply Forall_app. split; [assumption|].
      constructor; [|constructor]. eapply parse_line_ok; eauto.
    + now apply (IH _ _ H).
Qed.

(** The items of the lines are appended to those found so far. *)
Lemma parse_lines_acc py : forall lines acc,
  parse_lines py lines acc =
  bind (parse_lines py lines []) (fun its => Ok (acc ++ its)).
Proof.
  induction lines as [|line more IH]; intros acc; cbn [parse_lines].
  - cbn [bind]. now rewrite app_nil_r.
  - destruct (parse_line py line) as [[i|]|]; cbn [bind];
      [| apply IH | reflexivity].
    rewrite (IH (acc ++ [i])), (IH ([] ++ [i])).
    destruct (parse_lines py more []); cbn [bind]; [|reflexivity].
    now rewrite <- app_assoc.
Qed.

Lemma parse_lines_app py : forall l1 l2 acc,
  parse_lines py (l1 ++ l2) acc =
  bind (parse_lines py l1 acc) (fun a => parse_lines py l2 a).
Proof.
  induction l1 as [|line more IH]; intros l2 acc; cbn [parse_lines app].
  - reflexivity.
  - destruct (parse_line py line) as [[i|]|]; cbn [bind];
      [apply IH | apply IH | reflexivity].
Qed.

End ExtractorFacts.

(* ===================================================================== *)
(** * The assembler: [process_receipt] *)
(* ===================================================================== *)

Section Assembler.
Import Py Re Datetime ReceiptProcessor.

Variable Image : Type.
Variable cv2_pipeline : str -> Image + str.
Variable image_to_string : Image -> str + str.
Variable today : str.

Local Notation "'process'" := (process_receipt cv2_pipeline image_to_string today).

(** The two ways [process_receipt] ends: the [return] of the [try] block,
    with every extractor having returned, or the [return] of the [except]
    block. *)
Lemma process_receipt_cases py image_path :
  (exists image text v d t its,
      cv2_pipeline image_path = inl image /\
      image_to_string image = inl text /\
      parse_vendor py text = Ok v /\
      parse_date py text = Ok d /\
      parse_total py text = Ok t /\
      parse_items py text = Ok its /\
      process py image_path =
        Ok {| error := None; vendor := v; date := or_else d today;
              total := t; payment_method := parse_payment_method text;
              currency := lit "USD"; raw_text := text;
              confidence := if 0 <? length its then 0.95%Q else 0.85%Q;
              items := its |})
  \/ (exists e, process py image_path = Ok (error_record today e)).
Proof.
  unfold process_receipt, process_body, preprocess_image, extract_text.
  destruct (cv2_pipeline image_path) as [image|msg] eqn:E1;
    cbn [bind except_Exception]; [|right; eexists; reflexivity].
  destruct (image_to_string image) as [text|msg] eqn:E2;
    cbn [bind except_Exception]; [|right; eexists; reflexivity].
  destruct (parse_vendor py text) as [v|e] eqn:E3;
    cbn [bind except_Exception]; [|right; eexists; reflexivity].
  destruct (parse_date py text) as [d|e] eqn:E4;
    cbn [bind except_Exception]; [|right; eexists; reflexivity].
  destruct (parse_total py text) as [t|e] eqn:E5;
    cbn [bind except_Exception]; [|right; eexists; reflexivity].
  destruct (parse_items py text) as [its|e] eqn:E6;
    cbn [bind except_Exception]; [|right; eexists; reflexivity].
  left. exists image, text, v, d, t, its. cbn [bind except_Exception].
  repeat split; auto.
Qed.

(** From Python 3.11 on the [try] block never reaches its [return]:
    [parse_total] raises, and [process_receipt] always returns the error
    record. *)
Lemma process_receipt_from_3_11 image_path :
  exists e, process Py3_11 image_path = Ok (error_record today e).
Proof.
  destruct (process_receipt_cases Py3_11 image_path)
    as [(image & text & v & d & t & its & _ & _ & _ & _ & Et & _)|H];
    [|exact H].
  rewrite parse_total_raises_from_3_11 in Et. discriminate.
Qed.

End Assembler.

(* ===================================================================== *)
(** * The claims *)
(* ===================================================================== *)

Section Claims.
Import Py Re Datetime ReceiptProcessor Scenario.

(** C1.  For every image path (and every behaviour of the image and OCR
    collaborators, clock and interpreter release), [process_receipt]
    returns, without raising, a record that is either the record of the
    [try] block (no [error] key, currency "USD", the recognised text as
    [raw_text]) or the error record: an [error] key, vendor and
    payment method "Unknown", the current date, total 0.0, no items, empty
    [raw_text], confidence 0.5. *)
Theorem process_receipt_never_raises :
  forall (Image : Type) (cv2_pipeline : str -> Image + str)
         (image_to_string : Image -> str + str) (today : str)
         (py : python) (image_path : str),
  exists r,
    process_receipt cv2_pipeline image_to_string today py image_path = Ok r /\
    ((exists image text,
        cv2_pipeline image_path = inl image /\
        image_to_string image = inl text /\
        error r = None /\ currency r = lit "USD" /\ raw_text r = text)
     \/
     (exists e,
        error r = Some e /\
        vendor r = lit "Unknown" /\ payment_method r = lit "Unknown" /\
        date r = today /\ total r = 0.0%Q /\ items r = [] /\
        raw_text r = [] /\ confidence r = 0.5%Q /\
        currency r = lit "USD")).
Proof.
  intros Image cv2 ocr today py path.
  destruct (process_receipt_cases Image cv2 ocr today py path)
    as [(image & text & v & d & t & its & E1 & E2 & _ & _ & _ & _ & E)
       | (e & E)];
    rewrite E; eexists; (split; [reflexivity|]).
  - left. exists image, text. simpl. auto.
  - right. exists e. simpl. repeat split; reflexivity.
Qed.


(** C9.  [parse_payment_method] returns the first entry of the vocabulary
    that occurs in the lowered text, capitalized ([capitalize] turns the
    first letter of every entry into its upper case and leaves the rest),
    and "Unknown" when no entry occurs; a text that mentions both "visa"
    and "cash" gives "Cash". *)
Theorem parse_payment_method_first_in_vocabulary :
  forall text : str,
    (forall before m after,
        methods = before ++ m :: after ->
        occurs_in m (lower text) ->
        (forall m', In m' before -> ~ occurs_in m' (lower text)) ->
        parse_payment_method text = capitalize m)
    /\ ((forall m, In m methods -> ~ occurs_in m (lower text)) ->
        parse_payment_method text = lit "Unknown")
    /\ (occurs_in (lit "visa") (lower text) ->
        occurs_in (lit "cash") (lower text) ->
        parse_payment_method text = lit "Cash")
    /\ Forall (fun m => exists c t,
                  m = c :: t /\ capitalize m = upper_chr c :: t /\
                  upper_chr c <> c) methods.
Proof.
  intros text. unfold parse_payment_method. repeat split.
  - intros before m after E Hm Hb. rewrite E.
    now apply find_method_first.
  - apply find_method_none.
  - intros _ Hcash.
    exact (find_method_first (lower text) (lit "cash") [] (tl methods)
             Hcash (fun m' H => False_ind _ H)).
  - apply Forall_forall. intros m Hin. unfold methods in Hin.
    cbn [map In] in Hin.
    repeat (destruct Hin as [<-|Hin];
            [eexists; eexists;
             split; [reflexivity | split; [reflexivity | discriminate]]|]).
    contradiction.
Qed.

Lemma parse_payment_method_first_in_vocabulary_witness :
  parse_payment_method (lit "Paid by VISA, cash back 5.00") = lit "Cash".
Proof.
  apply (proj1 (proj2 (proj2
    (parse_payment_method_first_in_vocabulary
       (lit "Paid by VISA, cash back 5.00"))))).
  - exists (lit "paid by "), (lit ", cash back 5.00"). reflexivity.
  - exists (lit "paid by visa, "), (lit " back 5.00"). reflexivity.
Defined.

(** C7.  When the first pattern of [parse_date], the slash-separated one,
    finds "03/15/2024" in the text, [parse_date] returns "2024-03-15": the
    match is read as month/day/four-digit year and printed as
    YYYY-MM-DD. *)
Theorem parse_date_slash_four_digit_year :
  forall (py : python) (text : str) (m : match_obj),
    re_search py IGNORECASE slash_date text = Ok (Some m) ->
    m_group0 m = lit "03/15/2024" ->
    parse_date py text = Ok (Some (lit "2024-03-15")).
Proof.
  intros py text m Hs Hg.
  unfold parse_date, date_patterns. cbn [parse_date_loop].
  rewrite Hs. cbn [bind]. rewrite Hg. reflexivity.
Qed.

Lemma parse_date_slash_four_digit_year_witness :
  parse_date Py3_11 (lit "Date: 03/15/2024 14:32") = Ok (Some (lit "2024-03-15")).
Proof.
  apply (parse_date_slash_four_digit_year Py3_11
           (lit "Date: 03/15/2024 14:32")
           {| m_start := 6; m_group0 := lit "03/15/2024";
              m_caps := []; m_prev := Some "4"%char;
              m_rest := lit " 14:32" |});
    reflexivity.
Defined.

(** C2.  A match whose text no candidate format parses is not skipped:
    for the text "12-25-24", and for every text whose first date is
    written with the name of the month, such as "March 15, 2024", the
    [else] branch of [parse_date] leaves [parsed] unbound, the [return]
    raises [UnboundLocalError], which [except ValueError] does not catch,
    and [process_receipt] returns the error record; [parse_items] raises
    [ValueError] on an item line whose price carries a currency sign other
    than [$].  Of the three extractors only [parse_total] never raises,
    and only before Python 3.11. *)
Theorem unparsed_match_raises :
  forall py : python,
    parse_date py (lit "12-25-24") = Raise (UnboundLocalError (lit "parsed"))
    /\ parse_date py (lit "March 15, 2024")
       = Raise (UnboundLocalError (lit "parsed"))
    /\ (forall (text : str) (m : match_obj),
          re_search py IGNORECASE slash_date text = Ok None ->
          re_search py IGNORECASE dash_date text = Ok None ->
          re_search py IGNORECASE iso_date text = Ok None ->
          re_search py IGNORECASE month_day_date text = Ok (Some m) \/
          (re_search py IGNORECASE month_day_date text = Ok None /\
           re_search py IGNORECASE day_month_date text = Ok (Some m)) ->
          parse_date py text = Raise (UnboundLocalError (lit "parsed")))
    /\ process_receipt reads (recognises (lit "12-25-24"))
         (lit "2026-11-03") py (lit "receipt.png")
       = Ok (error_record (lit "2026-11-03")
               (UnboundLocalError (lit "parsed")))
    /\ parse_items py not_sign_line = Raise (ValueError not_sign_price)
    /\ (inline_flag_error py = false ->
        forall text : str, exists a, parse_total py text = Ok a).
Proof.
  intros py. split; [|split; [|split; [|split; [|split]]]];
    try (destruct py; reflexivity).
  - apply parse_date_month_name_raises.
  - intros Hpy text. now apply parse_total_returns_before_3_11.
Qed.

(** C3.  [parse_total] never returns the amount that follows a label: the
    two patterns that begin with a label hand the label, not the amount,
    to [float] and are always passed over.  On a receipt whose labelled
    total "Total: $45.67" is followed by other amounts, the releases that
    accept the third pattern return the last amount of the text, 4.33,
    and the releases that reject it raise [re.error], as they do on every
    text. *)
Theorem parse_total_misses_labelled_amount :
  (forall (py : python) (text : str),
      parse_total_loop py total_patterns text
      = parse_total_loop py [amount_label] text)
  /\ (forall text : str,
        parse_total Py3_11 text
        = Raise (ReError
                   (lit "global flags not at the start of the expression")))
  /\ parse_total Py3_6 till_receipt = Ok 4.33%Q
  /\ parse_total Py3_10_7 till_receipt = Ok 4.33%Q.
Proof.
  split; [|split; [|split]].
  - apply parse_total_labels_skipped.
  - apply parse_total_raises_from_3_11.
  - reflexivity.
  - reflexivity.
Qed.

(** C4.  Whenever the label pattern matches, and whenever it does not and
    the greeting pattern matches, [parse_vendor] returns the label or the
    greeting itself (group 1), not the value that follows it: "Vendor"
    for "Vendor: Acme Corp" and "Thank you" for "Thank you for visiting
    Joe's Diner". *)
Theorem parse_vendor_returns_label :
  forall py : python,
    (forall (text : str) (m : match_obj),
        re_search py MULTILINE vendor_label text = Ok (Some m) ->
        exists g, group m 1 = Some g /\ one_of label_words g /\
                  parse_vendor py text = Ok g)
    /\ (forall (text : str) (m : match_obj),
          re_search py MULTILINE vendor_label text = Ok None ->
          re_search py MULTILINE vendor_greeting text = Ok (Some m) ->
          exists g, group m 1 = Some g /\ one_of greeting_words g /\
                    parse_vendor py text = Ok g)
    /\ parse_vendor py (lit "Vendor: Acme Corp") = Ok (lit "Vendor")
    /\ parse_vendor py (lit "Thank you for visiting Joe's Diner")
       = Ok (lit "Thank you").
Proof.
  intros py. split; [|split; [|split]].
  - apply parse_vendor_label.
  - apply parse_vendor_greeting.
  - destruct py; reflexivity.
  - destruct py; reflexivity.
Qed.

(** C5, as stated, fails: an item line may give an empty description, and
    a quantity of zero. *)
Lemma line_item_empty_description_zero_quantity :
  parse_items Py3_11 (lit "  2 @ 3.50 7.00")
  = Ok [{| description := []; quantity := 2; unit_price := 3.50%Q;
           total_price := 7.00%Q; category := lit "general" |}]
  /\ parse_items Py3_11 (lit "Coffee 0 @ 3.50 0.00")
     = Ok [{| description := lit "Coffee"; quantity := 0;
              unit_price := 3.50%Q; total_price := 0.00%Q;
              category := lit "general" |}].
Proof. split; reflexivity. Qed.

(** C5, amended.  Every LineItem [parse_items] returns has a description
    without whitespace at either end (possibly empty), a quantity that is
    not negative, a unit price and a total price that are not negative,
    and the category "general". *)
Theorem parse_items_line_items :
  forall (py : python) (text : str) (its : list LineItem) (i : LineItem),
    parse_items py text = Ok its ->
    In i its ->
    trimmed (description i) /\
    (0 <= quantity i)%Z /\
    (0 <= unit_price i)%Q /\ (0 <= total_price i)%Q /\
    category i = lit "general".
Proof.
  intros py text its i H Hin. unfold parse_items in H.
  pose proof (parse_lines_ok py _ _ _ H (Forall_nil _)) as Hall.
  rewrite Forall_forall in Hall. exact (Hall i Hin).
Qed.

Lemma parse_items_line_items_witness :
  trimmed (description coffee_item) /\
  (0 <= quantity coffee_item)%Z /\
  (0 <= unit_price coffee_item)%Q /\ (0 <= total_price coffee_item)%Q /\
  category coffee_item = lit "general".
Proof.
  apply (parse_items_line_items Py3_11 coffee_line [coffee_item] coffee_item).
  - reflexivity.
  - simpl. auto.
Defined.

(** What the line "Coffee 2 @ $3.50 $7.00" adds when the loop gets through
    the other lines of the text: its item, between the items of the lines
    before it and those of the lines after it. *)
Lemma parse_items_coffee_line :
  forall (py : python) (text : str) (before after : list str)
         (items_before items_after : list LineItem),
    split nl text = before ++ coffee_line :: after ->
    parse_lines py before [] = Ok items_before ->
    parse_lines py after [] = Ok items_after ->
    parse_items py text = Ok (items_before ++ coffee_item :: items_after).
Proof.
  intros py text before after ib ia Hsplit Hb Ha.
  unfold parse_items. fold nl. rewrite Hsplit, parse_lines_app, Hb.
  cbn [bind parse_lines].
  assert (Hl : parse_line py coffee_line = Ok (Some coffee_item))
    by (destruct py; reflexivity).
  rewrite Hl. cbn [bind]. rewrite parse_lines_acc, Ha. cbn [bind].
  now rewrite <- app_assoc.
Qed.

(** The item of the line is lost when the loop raises on another line,
    before it or after it. *)
Lemma parse_items_coffee_line_lost :
  forall (py : python) (text : str) (before after : list str) (e : exn),
    split nl text = before ++ coffee_line :: after ->
    parse_lines py before [] = Raise e \/
    (exists items_before,
        parse_lines py before [] = Ok items_before /\
        parse_lines py after [] = Raise e) ->
    parse_items py text = Raise e.
Proof.
  intros py text before after e Hsplit H.
  unfold parse_items. fold nl. rewrite Hsplit, parse_lines_app.
  destruct H as [Hb|(ib & Hb & Ha)]; rewrite Hb; cbn [bind parse_lines];
    [reflexivity|].
  assert (Hl : parse_line py coffee_line = Ok (Some coffee_item))
    by (destruct py; reflexivity).
  rewrite Hl. cbn [bind]. rewrite parse_lines_acc, Ha. reflexivity.
Qed.

(** C8.  A text that contains the line "Coffee 2 @ $3.50 $7.00" does not
    always give a LineItem for it.  The line alone matches and gives the
    item (Coffee, 2, 3.50, 7.00, general), and so does a text whose other
    lines the loop gets through; but [parse_items] converts every matched
    line without a handler, so on the text made of the line and of the
    item line [not_sign_line] (a tea at 2.00 whose prices carry the sign
    U+00AC of the currency set; only [$] is removed before [float]) it
    raises [ValueError] and returns no item at all, whichever line comes
    first;
    and so it does whenever the loop raises on a line before or after
    the Coffee line. *)
Theorem coffee_line_item_lost_to_value_error :
  forall py : python,
    parse_line py coffee_line = Ok (Some coffee_item)
    /\ parse_items py coffee_line = Ok [coffee_item]
    /\ parse_items py (join nl [coffee_line; not_sign_line])
       = Raise (ValueError not_sign_price)
    /\ parse_items py (join nl [not_sign_line; coffee_line])
       = Raise (ValueError not_sign_price)
    /\ (forall (text : str) (before after : list str) (e : exn),
          split nl text = before ++ coffee_line :: after ->
          parse_lines py before [] = Raise e \/
          (exists items_before,
              parse_lines py before [] = Ok items_before /\
              parse_lines py after [] = Raise e) ->
          parse_items py text = Raise e)
    /\ (forall (text : str) (before after : list str)
               (items_before items_after : list LineItem),
          split nl text = before ++ coffee_line :: after ->
          parse_lines py before [] = Ok items_before ->
          parse_lines py after [] = Ok items_after ->
          parse_items py text
          = Ok (items_before ++ coffee_item :: items_after)).
Proof.
  intros py. split; [|split; [|split; [|split; [|split]]]];
    try (destruct py; reflexivity).
  - apply parse_items_coffee_line_lost.
  - apply parse_items_coffee_line.
Qed.

(** C10, as stated, fails: for the text "03/15/24" [parse_date] returns no
    date at all. *)
Lemma two_digit_year_gives_no_date :
  parse_date Py3_11 (lit "03/15/24") = Ok None.
Proof. reflexivity. Qed.

(** C10, amended.  When the slash-separated pattern finds a date with a
    two-digit year, such as "03/15/24", [parse_date] tries the
    month/day/four-digit-year format only; that format takes exactly four
    digits of year and rejects the match, the [ValueError] is caught, and
    [parse_date] goes on with the four other patterns: the result is what
    they give, and the two-digit year is never read as the year 24. *)
Theorem parse_date_slash_two_digit_year :
  forall (py : python) (text : str) (m : match_obj) (month_day year : str),
    re_search py IGNORECASE slash_date text = Ok (Some m) ->
    m_group0 m = month_day ++ "/"%char :: year ->
    forallb isdigit year = true ->
    length year = 2 ->
    strptime (m_group0 m) fmt_m_d_Y_slash = Raise (ValueError (m_group0 m))
    /\ parse_date py text =
       parse_date_loop py
         [dash_date; iso_date; month_day_date; day_month_date] text.
Proof.
  intros py text m md y Hs Hg Hy Hlen.
  assert (Hp : strptime (m_group0 m) fmt_m_d_Y_slash
               = Raise (ValueError (m_group0 m))).
  { rewrite Hg. apply strptime_short_year; [assumption | lia]. }
  split; [exact Hp|].
  unfold parse_date, date_patterns. cbn [parse_date_loop].
  rewrite Hs. cbn [bind]. unfold parse_match.
  assert (Hc : contains_chr (m_group0 m) "/" = true).
  { rewrite Hg. unfold contains_chr. rewrite existsb_app. simpl.
    apply orb_true_r. }
  rewrite Hc, Hp. reflexivity.
Qed.

Lemma parse_date_slash_two_digit_year_witness :
  parse_date Py3_11 (lit "Date 03/15/24") =
    parse_date_loop Py3_11
      [dash_date; iso_date; month_day_date; day_month_date]
      (lit "Date 03/15/24").
Proof.
  apply (parse_date_slash_two_digit_year Py3_11 (lit "Date 03/15/24")
           {| m_start := 5; m_group0 := lit "03/15/24"; m_caps := [];
              m_prev := Some "4"%char; m_rest := [] |}
           (lit "03/15") (lit "24"));
    reflexivity.
Defined.

End Claims.

(* ===================================================================== *)
(** * Parts of a text *)
(* ===================================================================== *)

Section PartFacts.
Import Py Re.

Lemma occurs_in_refl (s : str) : occurs_in s s.
Proof. exists [], []. now rewrite app_nil_r. Qed.

Lemma occurs_in_nil (s : str) : occurs_in [] s.
Proof. exists [], s. reflexivity. Qed.

Lemma occurs_in_trans (a b c : str) :
  occurs_in a b -> occurs_in b c -> occurs_in a c.
Proof.
  intros (p1 & q1 & ->) (p2 & q2 & ->).
  exists (p2 ++ p1), (q1 ++ q2). now rewrite !app_assoc.
Qed.

Lemma occurs_in_within (w pre s post : str) :
  occurs_in w s -> occurs_in w (pre ++ s ++ post).
Proof.
  intros H. apply (occurs_in_trans _ _ _ H). now exists pre, post.
Qed.

Lemma occurs_in_cons (w : str) c s : occurs_in w s -> occurs_in w (c :: s).
Proof.
  intros H. apply (occurs_in_trans _ _ _ H). exists [c], [].
  now rewrite app_nil_r.
Qed.

Lemma occurs_in_forallb P (w s : str) :
  occurs_in w s -> forallb P s = true -> forallb P w = true.
Proof.
  intros (pre & post & ->). rewrite !forallb_app.
  intros H. apply andb_true_iff in H. destruct H as [_ H].
  apply andb_true_iff in H. tauto.
Qed.

Lemma occurs_in_existsb P (w s : str) :
  occurs_in w s -> existsb P w = true -> existsb P s = true.
Proof.
  intros (pre & post & ->) H. rewrite !existsb_app, H.
  now rewrite orb_true_r.
Qed.

Lemma absent_existsb P (s : str) :
  absent P s -> existsb P s = true -> False.
Proof.
  unfold absent. induction s as [|c s IH]; simpl; [discriminate|].
  intros H1 H2. apply andb_true_iff in H1. destruct H1 as [Hc Hs].
  apply orb_true_iff in H2. destruct H2 as [H2|H2].
  - rewrite H2 in Hc. discriminate.
  - auto.
Qed.

Lemma absent_part P (w s : str) : occurs_in w s -> absent P s -> absent P w.
Proof. apply occurs_in_forallb. Qed.

Lemma strip_with_occurs p s : occurs_in (strip_with p s) s.
Proof.
  unfold strip_with.
  destruct (drop_while_split p s) as (pre & E1 & _).
  destruct (drop_while_split p (rev (drop_while p s))) as (pre2 & E2 & _).
  exists pre, (rev pre2).
  rewrite <- rev_app_distr, <- E2, rev_involutive. exact E1.
Qed.

Lemma strip_occurs s : occurs_in (strip s) s.
Proof. apply strip_with_occurs. Qed.

Lemma split_parts c : forall s w ws,
  split c s = w :: ws ->
  (exists post, s = w ++ post) /\ (forall l, In l ws -> occurs_in l s).
Proof.
  induction s as [|x t IH]; intros w ws H; simpl in H.
  - injection H as <- <-. split; [now exists []|intros l []].
  - destruct (Ascii.eqb c x).
    + injection H as <- <-. split; [now exists (x :: t)|].
      intros l Hl. apply occurs_in_cons.
      destruct (split c t) as [|w' ws'] eqn:E; [destruct Hl|].
      destruct (IH _ _ eq_refl) as [(post & Ep) Hin].
      destruct Hl as [<-|Hl]; [|auto].
      exists [], post. exact Ep.
    + destruct (split c t) as [|w' ws'] eqn:E.
      * injection H as <- <-. split; [now exists t|intros l []].
      * injection H as <- <-.
        destruct (IH _ _ eq_refl) as [(post & Ep) Hin]. split.
        -- exists post. simpl. now rewrite <- Ep.
        -- intros l Hl. apply occurs_in_cons. auto.
Qed.

Lemma split_occurs c s l : In l (split c s) -> occurs_in l s.
Proof.
  destruct (split c s) as [|w ws] eqn:E; [intros []|].
  destruct (split_parts c _ _ _ E) as [(post & Ep) Hin].
  intros [<-|H]; [|auto]. exists [], post. exact Ep.
Qed.

Lemma firstn_incl {A} n (l : list A) x : In x (firstn n l) -> In x l.
Proof.
  intros H. rewrite <- (firstn_skipn n l). apply in_or_app. now left.
Qed.

Lemma split_nonempty c s : split c s <> [].
Proof.
  destruct s as [|x t]; simpl; [discriminate|].
  destruct (Ascii.eqb c x); [discriminate|].
  destruct (split c t); discriminate.
Qed.

Lemma split_app c : forall t1 t2,
  split c (t1 ++ c :: t2) = split c t1 ++ split c t2.
Proof.
  induction t1 as [|x t1 IH]; intros t2; simpl.
  - now rewrite Ascii.eqb_refl.
  - rewrite IH. destruct (Ascii.eqb c x); [reflexivity|].
    pose proof (split_nonempty c t1) as Hne.
    destruct (split c t1) as [|w ws]; [contradiction|reflexivity].
Qed.

End PartFacts.

(* ===================================================================== *)
(** * What a match needs and where its groups come from *)
(* ===================================================================== *)

Section NeedFacts.
Import Py Re.

Variable fl : flags.

Ltac induction_on_match :=
  induction 1 as [s | s | c s x xs Hr Hc
                  | r1 r2 s s1 s2 M1 IH1 M2 IH2
                  | r1 r2 s s1 M IH | r1 r2 s s1 M IH
                  | hi r s | lo hi r s s1 s2 Hit M1 IH1 Hlt M2 IH2
                  | g' r s s1 M IH | s Hb | s Hb].

Lemma matches_must_have P r s s1 :
  matches fl r s s1 ->
  exists w, rest s = w ++ rest s1 /\
            (must_have fl P r = true -> existsb P w = true).
Proof.
  induction_on_match; cbn [must_have].
  - exists []. split; [reflexivity|discriminate].
  - exists []. split; [reflexivity|discriminate].
  - exists [x]. split.
    + unfold advance. rewrite Hr. reflexivity.
    + intros H. rewrite forallb_forall in H.
      specialize (H x (in_all_chars x)). rewrite Hc in H. simpl in *.
      now rewrite H.
  - destruct IH1 as (w1 & E1 & H1), IH2 as (w2 & E2 & H2).
    exists (w1 ++ w2). split.
    + now rewrite E1, E2, app_assoc.
    + intros H. rewrite existsb_app. apply orb_true_iff in H.
      apply orb_true_iff. tauto.
  - destruct IH as (w & E & H). exists w. split; [assumption|].
    intros H'. apply andb_true_iff in H'. tauto.
  - destruct IH as (w & E & H). exists w. split; [assumption|].
    intros H'. apply andb_true_iff in H'. tauto.
  - exists []. split; [reflexivity|]. simpl. discriminate.
  - destruct IH1 as (w1 & E1 & H1), IH2 as (w2 & E2 & _).
    exists (w1 ++ w2). split.
    + now rewrite E1, E2, app_assoc.
    + intros H. apply andb_true_iff in H. destruct H as [_ H].
      rewrite existsb_app, (H1 H). reflexivity.
  - destruct IH as (w & E & H). exists w. split; assumption.
  - exists []. split; [reflexivity|discriminate].
  - exists []. split; [reflexivity|discriminate].
Qed.

Lemma found_must_have P r m :
  found fl r m -> must_have fl P r = true ->
  existsb P (m_group0 m) = true.
Proof.
  intros (p & t & s1 & Hm & _ & Er & Et) H.
  destruct (matches_must_have P _ _ _ Hm) as (w & Ew & Hw).
  cbn [rest] in Ew. rewrite Et, Er in Ew.
  apply app_inv_tail in Ew. rewrite Ew. auto.
Qed.

Lemma matches_caps_in T r s s1 :
  matches fl r s s1 ->
  (exists pre, T = pre ++ rest s) ->
  caps_in T (caps s) -> caps_in T (caps s1).
Proof.
  induction_on_match; intros Hpre Hin; try assumption.
  - unfold advance. rewrite Hr. exact Hin.
  - apply IH2; [|auto].
    destruct Hpre as (pre & ->).
    destruct (matches_consumes fl (fun _ => true) _ _ _ M1) as (w & E & _).
    exists (pre ++ w). now rewrite E, app_assoc.
  - auto.
  - auto.
  - apply IH2; [|auto].
    destruct Hpre as (pre & ->).
    destruct (matches_consumes fl (fun _ => true) _ _ _ M1) as (w & E & _).
    exists (pre ++ w). now rewrite E, app_assoc.
  - intros g w. rewrite lookup_set_cap.
    destruct (g =? g').
    + intros [= <-]. destruct Hpre as (pre & ->).
      destruct (matches_consumes fl (fun _ => true) _ _ _ M) as (w & E & _).
      rewrite (consumed_app _ _ _ E), E. now exists pre, (rest s1).
    + apply IH; assumption.
Qed.

Lemma search_from_caps_in r : forall t p start m,
  search_from fl r p t start = Some m -> caps_in t (m_caps m).
Proof.
  assert (A : forall t p start m,
             match_at fl r p t start = Some m -> caps_in t (m_caps m)).
  { intros t p start m H. unfold match_at in H.
    destruct (run fl r _ _) as [s1|] eqn:Hrun; [|discriminate].
    injection H as <-. cbn [m_caps].
    apply run_sound in Hrun. destruct Hrun as (s2 & Hm & E).
    injection E as ->.
    apply (matches_caps_in _ _ _ _ Hm).
    - now exists [].
    - intros g w. discriminate. }
  induction t as [|c t IH]; intros p start m H; simpl in H;
    destruct (match_at fl r p _ start) as [m'|] eqn:Hm.
  - injection H as <-. eauto.
  - discriminate.
  - injection H as <-. eauto.
  - intros g w Hw. apply occurs_in_cons. exact (IH _ _ _ H g w Hw).
Qed.

Lemma search_from_group r t p start m g w :
  search_from fl r p t start = Some m ->
  group m g = Some w -> occurs_in w t.
Proof.
  intros H Hg. destruct g as [|g].
  - injection Hg as <-.
    destruct (search_from_text fl _ _ _ _ _ H) as (pre & E).
    now exists pre, (m_rest m).
  - exact (search_from_caps_in _ _ _ _ _ H _ _ Hg).
Qed.

Lemma matches_from_group r : forall fuel t p start m g w,
  In m (matches_from fuel fl r p t start) ->
  group m g = Some w -> occurs_in w t.
Proof.
  induction fuel as [|fuel IH]; intros t p start m g w Hin Hg;
    [destruct Hin|].
  cbn [matches_from] in Hin.
  destruct (search_from fl r p t start) as [m1|] eqn:Hs; [|destruct Hin].
  destruct Hin as [<-|Hin]; [exact (search_from_group _ _ _ _ _ _ _ Hs Hg)|].
  destruct (search_from_text fl _ _ _ _ _ Hs) as (pre & E).
  assert (S : forall u, occurs_in w u -> (exists a, m_rest m1 = a ++ u) ->
                        occurs_in w t).
  { intros u Hu (a & Ea). apply (occurs_in_trans _ _ _ Hu).
    exists (pre ++ m_group0 m1 ++ a), []. rewrite E, Ea, app_nil_r.
    now rewrite <- !app_assoc. }
  destruct (m_group0 m1) as [|c0 g0], (m_rest m1) as [|c t'];
    try destruct Hin.
  - apply (S t' (IH _ _ _ _ _ _ Hin Hg)). now exists [c].
  - apply (S [] (IH _ _ _ _ _ _ Hin Hg)). now exists [].
  - apply (S (c :: t') (IH _ _ _ _ _ _ Hin Hg)). now exists [].
Qed.

Lemma matches_from_absent P r fuel t p start :
  must_have fl P r = true -> absent P t ->
  matches_from fuel fl r p t start = [].
Proof.
  intros Hr Ht. destruct fuel as [|fuel]; [reflexivity|].
  cbn [matches_from].
  destruct (search_from fl r p t start) as [m|] eqn:Hs; [|reflexivity].
  exfalso. apply (absent_existsb P t Ht).
  apply (occurs_in_existsb P (m_group0 m)).
  - exact (search_from_group _ _ _ _ _ 0 _ Hs eq_refl).
  - exact (found_must_have _ _ _ (search_from_found fl _ _ _ _ _ Hs) Hr).
Qed.

Lemma texts_complete r s s1 :
  matches fl r s s1 -> finite r = true -> In (consumed s s1) (texts fl r).
Proof.
  induction_on_match; cbn [finite texts]; intros Hf;
    try discriminate;
    try (unfold consumed; rewrite Nat.sub_diag; now left).
  - assert (E : rest s = [x] ++ rest (advance s)).
    { unfold advance. rewrite Hr. reflexivity. }
    rewrite (consumed_app _ _ _ E).
    apply (in_map (fun y => [y])), filter_In.
    split; [apply in_all_chars|assumption].
  - apply andb_true_iff in Hf. destruct Hf as [F1 F2].
    destruct (matches_consumes fl (fun _ => true) _ _ _ M1) as (w1 & E1 & _).
    destruct (matches_consumes fl (fun _ => true) _ _ _ M2) as (w2 & E2 & _).
    specialize (IH1 F1). specialize (IH2 F2).
    rewrite (consumed_app _ _ _ E1) in IH1.
    rewrite (consumed_app _ _ _ E2) in IH2.
    assert (E : rest s = (w1 ++ w2) ++ rest s2)
      by now rewrite E1, E2, app_assoc.
    rewrite (consumed_app _ _ _ E). apply in_flat_map.
    exists w1. split; [assumption|]. now apply (in_map (fun b => w1 ++ b)).
  - apply andb_true_iff in Hf. apply in_or_app. left. tauto.
  - apply andb_true_iff in Hf. apply in_or_app. right. tauto.
  - exact (IH Hf).
Qed.

End NeedFacts.

Section SearchFacts.
Import Py Re.

Lemma compile_returns py fl r :
  later_flag r = false ->
  exists fl', compile py fl r = Ok (fl', r) /\
              (fl' = fl \/ fl' = with_ignorecase fl).
Proof.
  unfold compile. intros H.
  destruct r as [|c|r1 r2|r1 r2|lo hi r1|g r1| | |];
    try discriminate; try (cbn in H |- *; rewrite ?H; eauto; fail).
  destruct r1; cbn in H |- *; rewrite ?H; eauto.
Qed.

Lemma re_search_ok py fl r t :
  later_flag r = false -> exists o, re_search py fl r t = Ok o.
Proof.
  intros H. destruct (compile_returns py fl r H) as (fl' & E & _).
  unfold re_search. rewrite E. cbn [bind]. eauto.
Qed.

Lemma re_search_part py fl r t m g w :
  re_search py fl r t = Ok (Some m) ->
  group m g = Some w -> occurs_in w t.
Proof.
  unfold re_search, bind. intros H.
  destruct (compile py fl r) as [c|]; [|discriminate].
  injection H as H. unfold search in H.
  exact (search_from_group _ _ _ _ _ _ _ _ H).
Qed.

Lemma re_search_need py fl r t m P :
  re_search py fl r t = Ok (Some m) ->
  always_has fl P r -> existsb P t = true.
Proof.
  intros H [H1 H2].
  apply (occurs_in_existsb P (m_group0 m)).
  - exact (re_search_part _ _ _ _ _ 0 _ H eq_refl).
  - destruct (re_search_found _ _ _ _ _ H) as [Hf|Hf];
      eapply found_must_have; eassumption.
Qed.

Lemma re_search_absent py fl r t o P :
  re_search py fl r t = Ok o ->
  always_has fl P r -> absent P t -> o = None.
Proof.
  intros H Hr Ht. destruct o as [m|]; [|reflexivity].
  destruct (absent_existsb P t Ht). exact (re_search_need _ _ _ _ _ _ H Hr).
Qed.

Lemma re_findall1_part py fl r t l w :
  re_findall1 py fl r t = Ok l -> In w l -> occurs_in w t.
Proof.
  unfold re_findall1, bind. intros H Hw.
  destruct (compile py fl r) as [c|]; [|discriminate].
  injection H as <-. unfold findall1 in Hw.
  apply in_map_iff in Hw. destruct Hw as (m & <- & Hin).
  destruct (group m 1) as [g|] eqn:Eg; [|apply occurs_in_nil].
  exact (matches_from_group _ _ _ _ _ _ _ _ _ Hin Eg).
Qed.

Lemma re_findall1_absent py fl r t l P :
  re_findall1 py fl r t = Ok l ->
  always_has fl P r -> absent P t -> l = [].
Proof.
  unfold re_findall1, bind. intros H [H1 H2] Ht.
  destruct (compile py fl r) as [c|] eqn:Hc; [|discriminate].
  apply compile_inv in Hc. destruct Hc as [Er Ef].
  injection H as <-. unfold findall1. rewrite Er.
  destruct Ef as [Ef|Ef]; rewrite Ef;
    now rewrite (matches_from_absent _ P).
Qed.

Lemma absent_spec P (s : str) : absent P s <-> existsb P s = false.
Proof.
  unfold absent. induction s as [|c s IH]; simpl; [tauto|].
  rewrite andb_true_iff, orb_false_iff, IH, negb_true_iff. tauto.
Qed.

End SearchFacts.

(* ===================================================================== *)
(** * The dates [strptime] returns *)
(* ===================================================================== *)

Section CalendarFacts.
Import Py Re Datetime.

Lemma Ok_inj {A} (a b : A) : Ok a = Ok b -> a = b.
Proof. now intros [= ->]. Qed.

Lemma group_bodies_cat g : forall l body,
  In body (group_bodies g (cat l)) ->
  exists r, In r l /\ In body (group_bodies g r).
Proof.
  induction l as [|r l IH]; intros body H; [destruct H|].
  destruct l as [|r' l'].
  - exists r. split; [now left|exact H].
  - change (cat (r :: r' :: l')) with (Seq r (cat (r' :: l'))) in H.
    cbn [group_bodies] in H. apply in_app_or in H. destruct H as [H|H].
    + exists r. split; [now left|exact H].
    + destruct (IH _ H) as (r0 & Hin & Hb). exists r0. split; [now right|exact Hb].
Qed.

Lemma directive_field d g body :
  In body (group_bodies g (directive_re d)) ->
  finite body = true /\
  forallb (field_ok g) (texts IGNORECASE body) = true.
Proof.
  destruct d; cbn [directive_re group_bodies chr]; intros H;
    try (destruct H; fail);
    apply in_app_or in H; destruct H as [H|H];
    try (exfalso; revert H; vm_compute; tauto).
  all: destruct g as [|[|[|[|[|g]]]]]; try (destruct H; fail);
    destruct H as [<-|[]]; split; vm_compute; reflexivity.
Qed.

Lemma format_re_fields fmt g :
  group_lang IGNORECASE g (fun w => field_ok g w = true) (format_re fmt).
Proof.
  unfold group_lang, format_re. apply Forall_forall. intros body Hb a b Hm.
  destruct (group_bodies_cat _ _ _ Hb) as (r & Hr & Hin).
  apply in_map_iff in Hr. destruct Hr as (d & <- & _).
  destruct (directive_field _ _ _ Hin) as [Hf Ht].
  rewrite forallb_forall in Ht. apply Ht.
  exact (texts_complete _ _ _ _ Hm Hf).
Qed.

Lemma strptime_calendar s fmt dt :
  strptime s fmt = Ok dt -> calendar_date dt.
Proof.
  unfold strptime, match_. intros H.
  destruct (match_at IGNORECASE (format_re fmt) None s 0) as [m|] eqn:Hm;
    [|discriminate].
  apply match_at_found in Hm.
  assert (F : forall g w, lookup (S g) (m_caps m) = Some w ->
                          field_ok (S g) w = true).
  { intros g w Hw.
    exact (found_lang _ _ _ _ _ _ Hm (format_re_fields fmt (S g)) Hw). }
  destruct (m_rest m); [|discriminate].
  cbn [group] in H.
  match type of H with
  | (if ?c then _ else _) = _ => destruct c eqn:Hc; [|discriminate]
  end.
  apply Ok_inj in H. subst dt.
  unfold calendar_date. cbn [year month day].
  apply andb_true_iff in Hc. destruct Hc as [Hy Hd].
  apply Z.leb_le in Hy, Hd.
  pose proof (F 0) as F1. pose proof (F 1) as F2.
  pose proof (F 2) as F3. pose proof (F 3) as F4.
  cbn [field_ok] in F1, F2, F3, F4.
  destruct (lookup 1 (m_caps m)) as [w1|];
    [specialize (F1 _ eq_refl)|clear F1];
    (destruct (lookup 2 (m_caps m)) as [w2|];
     [specialize (F2 _ eq_refl)|clear F2]);
    (destruct (lookup 3 (m_caps m)) as [w3|];
     [specialize (F3 _ eq_refl)|clear F3]);
    (destruct (lookup 4 (m_caps m)) as [w4|];
     [specialize (F4 _ eq_refl)|clear F4]);
    repeat match goal with
           | B : (_ && _) = true |- _ =>
               apply andb_true_iff in B; destruct B as [? ?]
           | B : (_ <=? _)%Z = true |- _ => apply Z.leb_le in B
           end;
    cbv beta iota in *; try destruct (number w4 <=? 68)%Z; lia.
Qed.

End CalendarFacts.

(* ===================================================================== *)
(** * More about the extractors *)
(* ===================================================================== *)

Section ExtractorCases.
Import Py Re Datetime ReceiptProcessor.

(** ** [parse_date] *)

Lemma try_formats_some s : forall fmts d,
  try_formats s fmts = Some d ->
  exists fmt, In fmt fmts /\ strptime s fmt = Ok d.
Proof.
  induction fmts as [|fmt more IH]; intros d H; [discriminate|].
  cbn [try_formats] in H.
  destruct (strptime s fmt) as [d'|e] eqn:E.
  - injection H as <-. exists fmt. split; [now left|exact E].
  - destruct (IH _ H) as (f & Hin & Hf). exists f. split; [now right|exact Hf].
Qed.

Lemma parse_match_cases s d :
  parse_match s = Ok d ->
  exists fmt dt,
    In fmt [fmt_m_d_Y_slash; fmt_Y_m_d_dash; fmt_m_d_Y_dash; fmt_d_m_Y_dash] /\
    strptime s fmt = Ok dt /\ d = strftime_Ymd dt.
Proof.
  unfold parse_match.
  destruct (contains_chr s "/") eqn:Hs.
  - destruct (strptime s fmt_m_d_Y_slash) as [dt|e] eqn:E; cbn [bind];
      [|discriminate].
    intros [= <-]. exists fmt_m_d_Y_slash, dt. cbn [In]. auto 7.
  - destruct (contains_chr s "-" && _).
    + destruct (strptime s fmt_Y_m_d_dash) as [dt|e] eqn:E; cbn [bind];
        [|discriminate].
      intros [= <-]. exists fmt_Y_m_d_dash, dt. cbn [In]. auto 7.
    + cbn [try_formats].
      destruct (strptime s fmt_m_d_Y_dash) as [dt|e] eqn:E1; cbn [bind].
      { intros [= <-]. exists fmt_m_d_Y_dash, dt. cbn [In]. auto 7. }
      destruct (strptime s fmt_d_m_Y_dash) as [dt|e'] eqn:E2; cbn [bind].
      { intros [= <-]. exists fmt_d_m_Y_dash, dt. cbn [In]. auto 7. }
      rewrite (strptime_needs_separator s fmt_m_d_y_slash "/"),
              (strptime_needs_separator s fmt_d_m_y_slash "/");
        try (simpl; auto; fail); try assumption.
      cbn [bind]. discriminate.
Qed.

Lemma parse_date_loop_cases py text d : forall patterns,
  parse_date_loop py patterns text = Ok (Some d) ->
  exists pattern m,
    In pattern patterns /\
    re_search py IGNORECASE pattern text = Ok (Some m) /\
    parse_match (m_group0 m) = Ok d.
Proof.
  induction patterns as [|p more IH]; intros H; [discriminate|].
  cbn [parse_date_loop] in H.
  destruct (re_search py IGNORECASE p text) as [[m|]|e] eqn:Hs;
    cbn [bind] in H; [| |discriminate].
  - destruct (parse_match (m_group0 m)) as [d'|e] eqn:Hp;
      cbn [bind except_ValueError] in H.
    + injection H as <-. exists p, m. split; [now left|]. auto.
    + destruct e; try discriminate.
      destruct (IH H) as (p' & m' & Hin & H1 & H2).
      exists p', m'. split; [now right|]. auto.
  - destruct (IH H) as (p' & m' & Hin & H1 & H2).
    exists p', m'. split; [now right|]. auto.
Qed.

Lemma parse_date_loop_absent py text P : forall patterns,
  Forall (fun p => later_flag p = false /\ always_has IGNORECASE P p)
         patterns ->
  absent P text ->
  parse_date_loop py patterns text = Ok None.
Proof.
  induction 1 as [|p more [Hl Hp] _ IH]; intros Ht; [reflexivity|].
  cbn [parse_date_loop].
  destruct (re_search_ok py IGNORECASE p text Hl) as (o & Ho).
  rewrite Ho, (re_search_absent _ _ _ _ _ _ Ho Hp Ht). cbn [bind]. auto.
Qed.

Lemma date_patterns_need_digit :
  Forall (fun p => later_flag p = false /\ always_has IGNORECASE isdigit p)
         date_patterns.
Proof. repeat constructor. Qed.

Lemma re_search_without py fl r t c :
  later_flag r = false -> always_has fl (Ascii.eqb c) r ->
  contains_chr t c = false ->
  re_search py fl r t = Ok None.
Proof.
  intros Hl Hr Ht. destruct (re_search_ok py fl r t Hl) as (o & Ho).
  rewrite Ho. f_equal.
  apply (re_search_absent _ _ _ _ _ _ Ho Hr). now apply absent_spec.
Qed.

(** ** [parse_vendor] *)

Lemma parse_vendor_loop_result py text v : forall patterns,
  parse_vendor_loop py patterns text = Ok (Some v) ->
  2 < length v /\ trimmed v /\ occurs_in v text.
Proof.
  induction patterns as [|p more IH]; intros H; [discriminate|].
  cbn [parse_vendor_loop] in H.
  destruct (re_search py MULTILINE p text) as [[m|]|e] eqn:Hs;
    cbn [bind] in H; [|auto|discriminate].
  unfold group_str in H.
  destruct (group m 1) as [g|] eqn:Eg; cbn [bind] in H; [|discriminate].
  destruct (2 <? length (strip g)) eqn:Hlen; [|auto].
  injection H as <-. apply Nat.ltb_lt in Hlen.
  split; [assumption|]. split; [apply strip_trimmed|].
  apply (occurs_in_trans _ g); [apply strip_occurs|].
  exact (re_search_part _ _ _ _ _ _ _ Hs Eg).
Qed.

Lemma first_line_result : forall lines,
  first_line lines = lit "Unknown Vendor" \/
  exists l, In l lines /\ first_line lines = strip l /\
            2 < length (strip l).
Proof.
  induction lines as [|l more IH]; [now left|].
  cbn [first_line].
  destruct (2 <? length (strip l)) eqn:Hlen; cbn [andb].
  - destruct (negb _ && negb _).
    + right. exists l. apply Nat.ltb_lt in Hlen. split; [now left|auto].
    + destruct IH as [IH|(l' & Hin & E & Hl)]; [now left|].
      right. exists l'. split; [now right|auto].
  - destruct IH as [IH|(l' & Hin & E & Hl)]; [now left|].
    right. exists l'. split; [now right|auto].
Qed.

Lemma parse_vendor_loop_raises py text e : forall patterns,
  Forall (fun p => later_flag p = false) patterns ->
  parse_vendor_loop py patterns text = Raise e ->
  e = AttributeError /\
  exists pattern m,
    In pattern patterns /\
    re_search py MULTILINE pattern text = Ok (Some m) /\
    group m 1 = None.
Proof.
  induction 1 as [|p more Hl _ IH]; intros H; [discriminate|].
  cbn [parse_vendor_loop] in H.
  destruct (re_search_ok py MULTILINE p text Hl) as (o & Ho).
  rewrite Ho in H. cbn [bind] in H.
  assert (N : parse_vendor_loop py more text = Raise e ->
              e = AttributeError /\
              exists pattern m,
                In pattern (p :: more) /\
                re_search py MULTILINE pattern text = Ok (Some m) /\
                group m 1 = None).
  { intros H'. destruct (IH H') as (E & p' & m' & Hin & H1 & H2).
    split; [exact E|]. exists p', m'. split; [now right|auto]. }
  destruct o as [m|]; [|auto].
  unfold group_str in H.
  destruct (group m 1) as [g|] eqn:Eg; cbn [bind] in H.
  - destruct (2 <? length (strip g)); [discriminate|auto].
  - injection H as <-. split; [reflexivity|].
    exists p, m. split; [now left|auto].
Qed.

Lemma vendor_patterns_flags :
  Forall (fun p => later_flag p = false) vendor_patterns.
Proof. repeat constructor. Qed.

Lemma parse_vendor_raises_cases py text e :
  parse_vendor py text = Raise e ->
  e = AttributeError /\
  exists pattern m,
    In pattern vendor_patterns /\
    re_search py MULTILINE pattern text = Ok (Some m) /\
    group m 1 = None.
Proof.
  unfold parse_vendor. intros H.
  destruct (parse_vendor_loop py vendor_patterns text) as [[v|]|e'] eqn:Hl;
    cbn [bind] in H; try discriminate.
  injection H as <-.
  exact (parse_vendor_loop_raises _ _ _ _ vendor_patterns_flags Hl).
Qed.

(** ** [parse_total] *)

Lemma parse_total_absent py text P :
  inline_flag_error py = false ->
  always_has no_flags P amount_label ->
  always_has no_flags P amount_pattern ->
  absent P text ->
  parse_total py text = Ok 0.0%Q.
Proof.
  intros Hpy H1 H2 Ht. unfold parse_total.
  rewrite parse_total_labels_skipped. cbn [parse_total_loop].
  destruct (re_search_returns py no_flags amount_label text Hpy) as (o & Ho).
  rewrite Ho, (re_search_absent _ _ _ _ _ _ Ho H1 Ht). cbn [bind].
  destruct (re_findall1_returns py no_flags amount_pattern text Hpy)
    as (l & Hl).
  rewrite Hl, (re_findall1_absent _ _ _ _ _ _ Hl H2 Ht). reflexivity.
Qed.

(** ** [parse_items] *)

Lemma parse_line_absent py line P :
  always_has no_flags P item_pattern -> absent P line ->
  parse_line py line = Ok None.
Proof.
  intros Hp Hl. unfold parse_line.
  destruct (re_search_ok py no_flags item_pattern line eq_refl) as (o & Ho).
  rewrite Ho, (re_search_absent _ _ _ _ _ _ Ho Hp Hl). reflexivity.
Qed.

Lemma parse_lines_filter py P :
  always_has no_flags P item_pattern ->
  forall lines acc,
    parse_lines py lines acc = parse_lines py (filter (existsb P) lines) acc.
Proof.
  intros Hp. induction lines as [|l more IH]; intros acc; [reflexivity|].
  cbn [filter]. destruct (existsb P l) eqn:El.
  - cbn [parse_lines]. destruct (parse_line py l) as [[i|]|e]; cbn [bind]; auto.
  - cbn [parse_lines]. rewrite (parse_line_absent py l P Hp).
    + cbn [bind]. apply IH.
    + now apply absent_spec.
Qed.

Lemma parse_lines_absent py P :
  always_has no_flags P item_pattern ->
  forall lines acc,
    (forall l, In l lines -> absent P l) ->
    parse_lines py lines acc = Ok acc.
Proof.
  intros Hp. induction lines as [|l more IH]; intros acc Hl; [reflexivity|].
  cbn [parse_lines]. rewrite (parse_line_absent py l P Hp).
  - cbn [bind]. apply IH. intros l' Hin. apply Hl. now right.
  - apply Hl. now left.
Qed.

Lemma parse_lines_forall py (Q : LineItem -> Prop) : forall lines acc its,
  (forall line i, In line lines -> parse_line py line = Ok (Some i) -> Q i) ->
  parse_lines py lines acc = Ok its ->
  Forall Q acc -> Forall Q its.
Proof.
  induction lines as [|l more IH]; intros acc its HQ H Hacc.
  - injection H as <-. exact Hacc.
  - cbn [parse_lines] in H.
    destruct (parse_line py l) as [[i|]|e] eqn:Hl; cbn [bind] in H;
      [| |discriminate].
    + apply (IH (acc ++ [i]) its); [|exact H|].
      * intros line i' Hin. apply HQ. now right.
      * apply Forall_app. split; [exact Hacc|].
        constructor; [|constructor]. apply (HQ l); [now left|exact Hl].
    + apply (IH acc its); [|exact H|exact Hacc].
      intros line i' Hin. apply HQ. now right.
Qed.

Lemma parse_lines_length py : forall lines acc its,
  parse_lines py lines acc = Ok its ->
  length its <= length acc + length lines.
Proof.
  induction lines as [|l more IH]; intros acc its H.
  - injection H as <-. simpl. lia.
  - cbn [parse_lines] in H.
    destruct (parse_line py l) as [[i|]|e]; cbn [bind] in H;
      [| |discriminate]; apply IH in H; simpl;
      rewrite ?length_app in H; simpl in H; lia.
Qed.

Lemma parse_line_description py line i :
  parse_line py line = Ok (Some i) ->
  occurs_in (description i) line /\
  forallb letter_or_space (description i) = true.
Proof.
  unfold parse_line. intros H.
  destruct (re_search py no_flags item_pattern line) as [[m|]|] eqn:Hs;
    cbn [bind] in H; try discriminate.
  destruct (group_str m 1) as [g1|] eqn:H1; cbn [bind] in H;
    [|discriminate].
  destruct (group_str m 2) as [g2|] eqn:H2; cbn [bind] in H;
    [|discriminate].
  destruct (int py g2) as [qty|] eqn:Hq; cbn [bind] in H; [|discriminate].
  destruct (group_str m 3) as [g3|] eqn:H3; cbn [bind] in H;
    [|discriminate].
  destruct (price g3) as [up|] eqn:Hu; cbn [bind] in H; [|discriminate].
  destruct (group_str m 4) as [g4|] eqn:H4; cbn [bind] in H;
    [|discriminate].
  destruct (price g4) as [tp|] eqn:Ht; cbn [bind] in H; [|discriminate].
  injection H as <-. cbn [description]. split.
  - apply (occurs_in_trans _ g1); [apply strip_occurs|].
    unfold group_str in H1.
    destruct (group m 1) as [g|] eqn:Eg; [|discriminate].
    injection H1 as ->.
    exact (re_search_part _ _ _ _ _ _ _ Hs Eg).
  - apply forallb_strip_with.
    apply (group_str_chars _ _ _ _ _ 0 _ _ Hs); [|exact H1].
    split; reflexivity.
Qed.

Lemma parse_items_absent py text P :
  always_has no_flags P item_pattern -> absent P text ->
  parse_items py text = Ok [].
Proof.
  intros Hp Ht. unfold parse_items. apply (parse_lines_absent py P Hp).
  intros l Hl. apply (absent_part P l text); [|exact Ht].
  exact (split_occurs _ _ _ Hl).
Qed.

(** ** [parse_payment_method] *)

Lemma find_method_unknown text_lower : forall ms,
  Forall (fun m => capitalize m <> lit "Unknown") ms ->
  find_method ms text_lower = lit "Unknown" ->
  forall m, In m ms -> ~ occurs_in m text_lower.
Proof.
  induction 1 as [|m0 more Hm0 _ IH]; intros H m Hin; [destruct Hin|].
  cbn [find_method] in H.
  destruct (contains text_lower m0) eqn:Hc; [contradiction|].
  destruct Hin as [<-|Hin]; [|auto].
  rewrite <- contains_spec, Hc. discriminate.
Qed.

Lemma find_method_in text_lower : forall ms,
  In (find_method ms text_lower) (lit "Unknown" :: map capitalize ms).
Proof.
  induction ms as [|m more IH]; [now left|].
  cbn [find_method map].
  destruct (contains text_lower m); [right; now left|].
  destruct IH as [IH|IH]; [now left|right; now right].
Qed.

End ExtractorCases.

(* ===================================================================== *)
(** * Further properties of the extractors and of the assembler *)
(* ===================================================================== *)

Section Further.
Import Py Re Datetime ReceiptProcessor Scenario.

(** X1.  Under Python 3.11 and later [process_receipt] returns the error
    record for every image, whatever the image and OCR collaborators give:
    the [try] block never reaches its [return].  When the image is read,
    its text recognised and [parse_vendor] and [parse_date] return, the
    error of the record is the [re.error] that [parse_total] raises. *)
Theorem process_receipt_error_record_from_3_11 :
  forall (Image : Type) (cv2_pipeline : str -> Image + str)
         (image_to_string : Image -> str + str) (today : str)
         (image_path : str),
  exists e,
    process_receipt cv2_pipeline image_to_string today Py3_11 image_path
    = Ok (error_record today e) /\
    (forall image text v d,
        cv2_pipeline image_path = inl image ->
        image_to_string image = inl text ->
        parse_vendor Py3_11 text = Ok v ->
        parse_date Py3_11 text = Ok d ->
        e = ReError (lit "global flags not at the start of the expression")).
Proof.
  intros Image cv2_pipeline image_to_string today image_path.
  unfold process_receipt, process_body, preprocess_image, extract_text.
  destruct (cv2_pipeline image_path) as [image|msg];
    cbn [bind except_Exception];
    [|eexists; split; [reflexivity|intros; discriminate]].
  destruct (image_to_string image) as [text|msg] eqn:E2;
    cbn [bind except_Exception].
  2:{ eexists. split; [reflexivity|].
      intros image' text' v d [= <-]. rewrite E2. discriminate. }
  destruct (parse_vendor Py3_11 text) as [v|e] eqn:E3;
    cbn [bind except_Exception].
  2:{ eexists. split; [reflexivity|].
      intros image' text' v d [= <-]. rewrite E2. intros [= <-].
      rewrite E3. discriminate. }
  destruct (parse_date Py3_11 text) as [d|e] eqn:E4;
    cbn [bind except_Exception].
  2:{ eexists. split; [reflexivity|].
      intros image' text' v' d [= <-]. rewrite E2. intros [= <-] _.
      rewrite E4. discriminate. }
  rewrite parse_total_raises_from_3_11. cbn [bind except_Exception].
  eexists. split; reflexivity.
Qed.

(** X2.  A failure of the image pipeline or of the OCR engine ends in the
    error record, with a [RuntimeError] whose message is the text of the
    failure after "Image preprocessing failed: " (and then the OCR engine
    is not consulted) or after "Text extraction failed: ". *)
Theorem acquisition_failure_gives_error_record :
  forall (Image : Type) (cv2_pipeline : str -> Image + str)
         (image_to_string : Image -> str + str) (today : str)
         (py : python) (image_path : str),
  (forall msg,
      cv2_pipeline image_path = inr msg ->
      preprocess_image cv2_pipeline image_path
      = Raise (RuntimeError (lit "Image preprocessing failed: " ++ msg)) /\
      forall other_ocr : Image -> str + str,
        process_receipt cv2_pipeline other_ocr today py image_path
        = Ok (error_record today
                (RuntimeError (lit "Image preprocessing failed: " ++ msg))))
  /\
  (forall image msg,
      cv2_pipeline image_path = inl image ->
      image_to_string image = inr msg ->
      extract_text image_to_string image
      = Raise (RuntimeError (lit "Text extraction failed: " ++ msg)) /\
      process_receipt cv2_pipeline image_to_string today py image_path
      = Ok (error_record today
              (RuntimeError (lit "Text extraction failed: " ++ msg)))).
Proof.
  intros Image cv2_pipeline image_to_string today py image_path.
  unfold process_receipt, process_body, preprocess_image, extract_text.
  split.
  - intros msg ->. split; [reflexivity|]. intros other_ocr. reflexivity.
  - intros image msg -> E. cbn [bind]. rewrite E. split; reflexivity.
Qed.

(** X3.  A vendor name [parse_vendor] returns has more than two
    characters, no whitespace at either end, and is either a part of the
    text or the constant "Unknown Vendor". *)
Theorem parse_vendor_result py text v :
  parse_vendor py text = Ok v ->
  2 < length v /\ trimmed v /\
  (occurs_in v text \/ v = lit "Unknown Vendor").
Proof.
  unfold parse_vendor. intros H.
  destruct (parse_vendor_loop py vendor_patterns text) as [[w|]|e] eqn:Hl;
    cbn [bind] in H; [| |discriminate]; apply Ok_inj in H; subst v.
  - destruct (parse_vendor_loop_result _ _ _ _ Hl) as (H1 & H2 & H3). auto.
  - destruct (first_line_result (firstn 3 (split "010" text)))
      as [->|(l & Hin & -> & Hlen)].
    + split; [simpl; lia|]. split; [|now right].
      split; intros c t E.
      * injection E as <- _. reflexivity.
      * change (lit "Unknown Vendor") with (lit "Unknown Vendo" ++ ["r"%char]) in E.
        apply app_inj_tail in E. destruct E as [_ <-]. reflexivity.
    + split; [exact Hlen|]. split; [apply strip_trimmed|]. left.
      apply (occurs_in_trans _ l); [apply strip_occurs|].
      apply (split_occurs "010"). exact (firstn_incl _ _ _ Hin).
Qed.

Lemma parse_vendor_result_witness :
  parse_vendor Py3_6 (lit "Corner Deli") = Ok (lit "Corner Deli") /\
  (2 < length (lit "Corner Deli") /\ trimmed (lit "Corner Deli") /\
   (occurs_in (lit "Corner Deli") (lit "Corner Deli")
    \/ lit "Corner Deli" = lit "Unknown Vendor")).
Proof.
  split; [vm_compute; reflexivity|].
  apply (parse_vendor_result Py3_6 (lit "Corner Deli")).
  vm_compute; reflexivity.
Defined.

(** X4.  [parse_vendor] raises nothing but [AttributeError], and only
    when neither the label pattern nor the greeting pattern matches and a
    business-name pattern matches with its first group not taking part
    (a name of one word before the suffix, as in "Acme Inc"):
    [match.group(1)] is then [None], which has no [strip]. *)
Theorem parse_vendor_raises_only_attribute_error py text e :
  parse_vendor py text = Raise e ->
  e = AttributeError /\
  re_search py MULTILINE vendor_label text = Ok None /\
  re_search py MULTILINE vendor_greeting text = Ok None /\
  exists suffixes m,
    In (business_name suffixes) vendor_patterns /\
    re_search py MULTILINE (business_name suffixes) text = Ok (Some m) /\
    group m 1 = None.
Proof.
  intros H.
  destruct (parse_vendor_raises_cases _ _ _ H) as (-> & p & m & Hin & Hs & Hg).
  split; [reflexivity|].
  destruct (re_search_ok py MULTILINE vendor_label text eq_refl)
    as ([m1|] & H1).
  { destruct (parse_vendor_label _ _ _ H1) as (g & _ & _ & E).
    rewrite E in H. discriminate. }
  destruct (re_search_ok py MULTILINE vendor_greeting text eq_refl)
    as ([m2|] & H2).
  { destruct (parse_vendor_greeting _ _ _ H1 H2) as (g & _ & _ & E).
    rewrite E in H. discriminate. }
  split; [exact H1|]. split; [exact H2|].
  destruct Hin as [<-|[<-|[<-|[<-|[]]]]].
  - rewrite H1 in Hs. discriminate.
  - rewrite H2 in Hs. discriminate.
  - eexists _, m. split; [right; right; left; reflexivity|]. auto.
  - eexists _, m. split; [right; right; right; left; reflexivity|]. auto.
Qed.

Lemma parse_vendor_raises_only_attribute_error_witness :
  parse_vendor Py3_6 (lit "Acme Inc") = Raise AttributeError /\
  (AttributeError = AttributeError /\
   re_search Py3_6 MULTILINE vendor_label (lit "Acme Inc") = Ok None /\
   re_search Py3_6 MULTILINE vendor_greeting (lit "Acme Inc") = Ok None /\
   exists suffixes m,
     In (business_name suffixes) vendor_patterns /\
     re_search Py3_6 MULTILINE (business_name suffixes) (lit "Acme Inc")
     = Ok (Some m) /\
     group m 1 = None).
Proof.
  split; [vm_compute; reflexivity|].
  apply (parse_vendor_raises_only_attribute_error Py3_6 (lit "Acme Inc")).
  vm_compute; reflexivity.
Defined.

(** X5.  A date [parse_date] returns is a date of the calendar (month 1
    to 12, day within the month, year 1 to 9999) printed by
    [strftime('%Y-%m-%d')], and it was read from a part of the text by one
    of the four formats with a four-digit year: the two formats with [%y]
    of the [else] branch are never the ones that parse. *)
Theorem parse_date_returns_calendar_date py text d :
  parse_date py text = Ok (Some d) ->
  exists date_str fmt dt,
    occurs_in date_str text /\
    In fmt [fmt_m_d_Y_slash; fmt_Y_m_d_dash; fmt_m_d_Y_dash; fmt_d_m_Y_dash] /\
    strptime date_str fmt = Ok dt /\
    calendar_date dt /\
    d = strftime_Ymd dt.
Proof.
  intros H. apply parse_date_loop_cases in H.
  destruct H as (p & m & _ & Hs & Hp).
  destruct (parse_match_cases _ _ Hp) as (fmt & dt & Hin & Hf & ->).
  exists (m_group0 m), fmt, dt.
  split; [exact (re_search_part _ _ _ _ _ 0 _ Hs eq_refl)|].
  split; [exact Hin|]. split; [exact Hf|].
  split; [exact (strptime_calendar _ _ _ Hf)|reflexivity].
Qed.

Lemma parse_date_returns_calendar_date_witness :
  parse_date Py3_6 (lit "Date: 25-12-2024") = Ok (Some (lit "2024-12-25")) /\
  exists date_str fmt dt,
    occurs_in date_str (lit "Date: 25-12-2024") /\
    In fmt [fmt_m_d_Y_slash; fmt_Y_m_d_dash; fmt_m_d_Y_dash; fmt_d_m_Y_dash] /\
    strptime date_str fmt = Ok dt /\
    calendar_date dt /\
    lit "2024-12-25" = strftime_Ymd dt.
Proof.
  split; [vm_compute; reflexivity|].
  apply (parse_date_returns_calendar_date Py3_6 (lit "Date: 25-12-2024")).
  vm_compute; reflexivity.
Defined.

(** X6.  On a text without a digit [parse_date] returns [None], on every
    release of the interpreter: no pattern matches and nothing is
    raised. *)
Theorem parse_date_without_digit py text :
  absent isdigit text -> parse_date py text = Ok None.
Proof.
  apply parse_date_loop_absent, date_patterns_need_digit.
Qed.

Lemma parse_date_without_digit_witness :
  absent isdigit (lit "Thank you, come again") /\
  parse_date Py3_11 (lit "Thank you, come again") = Ok None.
Proof.
  split; [reflexivity|].
  apply (parse_date_without_digit Py3_11 (lit "Thank you, come again")).
  reflexivity.
Defined.

(** X7.  On a text with neither a slash nor a hyphen [parse_date] never
    returns a date: it returns [None] or raises [UnboundLocalError] (when
    a month-name pattern matches). *)
Theorem parse_date_without_separator py text :
  contains_chr text "/" = false ->
  contains_chr text "-" = false ->
  parse_date py text = Ok None \/
  parse_date py text = Raise (UnboundLocalError (lit "parsed")).
Proof.
  intros Hs Hd.
  assert (H1 : re_search py IGNORECASE slash_date text = Ok None).
  { apply (re_search_without _ _ _ _ "/"); [reflexivity|split; reflexivity|assumption]. }
  assert (H2 : re_search py IGNORECASE dash_date text = Ok None).
  { apply (re_search_without _ _ _ _ "-"); [reflexivity|split; reflexivity|assumption]. }
  assert (H3 : re_search py IGNORECASE iso_date text = Ok None).
  { apply (re_search_without _ _ _ _ "-"); [reflexivity|split; reflexivity|assumption]. }
  destruct (re_search_ok py IGNORECASE month_day_date text eq_refl)
    as ([m4|] & H4).
  { right. apply (parse_date_month_name_raises py text m4); auto. }
  destruct (re_search_ok py IGNORECASE day_month_date text eq_refl)
    as ([m5|] & H5).
  { right. apply (parse_date_month_name_raises py text m5); auto. }
  left. unfold parse_date, date_patterns. cbn [parse_date_loop].
  rewrite H1, H2, H3, H4, H5. reflexivity.
Qed.

Lemma parse_date_without_separator_witness :
  contains_chr (lit "March 15, 2024") "/" = false /\
  contains_chr (lit "March 15, 2024") "-" = false /\
  (parse_date Py3_6 (lit "March 15, 2024") = Ok None \/
   parse_date Py3_6 (lit "March 15, 2024")
   = Raise (UnboundLocalError (lit "parsed"))).
Proof.
  split; [reflexivity|]. split; [reflexivity|].
  apply (parse_date_without_separator Py3_6 (lit "March 15, 2024"));
    reflexivity.
Defined.

(** X8.  A total [parse_total] returns is 0.0 or the number written by a
    part of the text of the shape digits-and-commas, point, two digits
    (read with the commas removed): no other number is ever returned. *)
Theorem parse_total_is_an_amount_of_the_text py text a :
  parse_total py text = Ok a ->
  a = 0.0%Q \/
  exists w, occurs_in w text /\ amount_text w /\
            float (remove_chr "," w) = Ok a.
Proof.
  unfold parse_total. rewrite parse_total_labels_skipped.
  cbn [parse_total_loop].
  destruct (re_search py no_flags amount_label text) as [[m|]|e] eqn:Hs;
    cbn [bind]; [| |discriminate].
  - unfold group_str.
    destruct (group m 1) as [g|] eqn:Eg; cbn [bind]; [|discriminate].
    assert (Ha : amount_text g)
      by exact (re_search_lang _ _ _ _ _ _ _ _ Hs amount_label_lang Eg).
    destruct (float_amount_text g Ha) as (q & Hq).
    rewrite Hq. cbn [bind except_ValueError]. intros [= <-].
    right. exists g. split; [|auto].
    exact (re_search_part _ _ _ _ _ _ _ Hs Eg).
  - destruct (re_findall1 py no_flags amount_pattern text) as [l|e] eqn:Hl;
      cbn [bind]; [|discriminate].
    destruct l as [|w ws] eqn:El; [intros [= <-]; now left|].
    rewrite <- El in *. intros Hf. right. exists (last l []).
    assert (Hin : In (last l []) l) by (apply last_in; now rewrite El).
    split; [exact (re_findall1_part _ _ _ _ _ _ Hl Hin)|].
    split; [|exact Hf].
    destruct (re_findall1_found _ _ _ _ _ _ Hl Hin) as (m & Hm & Ew).
    assert (Hsome : group m 1 <> None).
    { destruct Hm as [Hm|Hm];
        exact (found_sets_group _ 1 _ _ Hm eq_refl). }
    destruct (group m 1) as [g|] eqn:Eg; [|contradiction].
    rewrite Ew.
    destruct Hm as [Hm|Hm];
      exact (found_lang _ _ _ _ _ _ Hm (amount_pattern_lang _) Eg).
Qed.

Lemma parse_total_is_an_amount_of_the_text_witness :
  parse_total Py3_6 till_receipt = Ok 4.33%Q /\
  (4.33%Q = 0.0%Q \/
   exists w, occurs_in w till_receipt /\ amount_text w /\
             float (remove_chr "," w) = Ok 4.33%Q).
Proof.
  split; [vm_compute; reflexivity|].
  apply (parse_total_is_an_amount_of_the_text Py3_6 till_receipt).
  vm_compute; reflexivity.
Defined.

(** X9.  Before Python 3.11, on a text without a decimal point
    [parse_total] returns 0.0: every amount it can read has a point. *)
Theorem parse_total_without_point py text :
  inline_flag_error py = false ->
  contains_chr text "." = false ->
  parse_total py text = Ok 0.0%Q.
Proof.
  intros Hpy Ht.
  apply (parse_total_absent py text (Ascii.eqb ".") Hpy);
    [split; reflexivity|split; reflexivity|].
  now apply absent_spec.
Qed.

Lemma parse_total_without_point_witness :
  inline_flag_error Py3_10_7 = false /\
  contains_chr (lit "Total: 45") "." = false /\
  parse_total Py3_10_7 (lit "Total: 45") = Ok 0.0%Q.
Proof.
  split; [reflexivity|]. split; [reflexivity|].
  apply (parse_total_without_point Py3_10_7 (lit "Total: 45")); reflexivity.
Defined.

(** X10.  [parse_items] ignores the lines without an at sign: it gives
    what the loop gives on the lines that hold one, and such a line never
    makes it raise. *)
Theorem parse_items_ignores_lines_without_at py text :
  parse_items py text
  = parse_lines py
      (filter (fun line => contains_chr line "@") (split "010" text)) [].
Proof.
  unfold parse_items.
  rewrite (parse_lines_filter py (Ascii.eqb "@")); [reflexivity|].
  split; reflexivity.
Qed.

(** X11.  The items of two texts joined by a newline are the items of the
    first followed by the items of the second, and the call raises
    exactly when one of the two does (the first exception met): lines are
    read independently and in order, without any removal of
    duplicates. *)
Theorem parse_items_of_joined_texts py text1 text2 :
  parse_items py (text1 ++ "010"%char :: text2)
  = (items1 <- parse_items py text1 ;;
     items2 <- parse_items py text2 ;;
     Ok (items1 ++ items2)).
Proof.
  unfold parse_items. rewrite split_app, parse_lines_app.
  destruct (parse_lines py (split "010" text1) []) as [a|e]; cbn [bind];
    [|reflexivity].
  apply parse_lines_acc.
Qed.

(** X12.  The description of every item [parse_items] returns is a part
    of the text and holds only ASCII letters and whitespace. *)
Theorem parse_items_descriptions py text its :
  parse_items py text = Ok its ->
  Forall (fun i => occurs_in (description i) text /\
                   forallb letter_or_space (description i) = true) its.
Proof.
  unfold parse_items. intros H.
  refine (parse_lines_forall py _ _ _ _ _ H (Forall_nil _)).
  intros line i Hin Hl.
  destruct (parse_line_description _ _ _ Hl) as [H1 H2].
  split; [|exact H2].
  apply (occurs_in_trans _ line _ H1). exact (split_occurs _ _ _ Hin).
Qed.

Lemma parse_items_descriptions_witness :
  parse_items Py3_6 coffee_line = Ok [coffee_item] /\
  Forall (fun i => occurs_in (description i) coffee_line /\
                   forallb letter_or_space (description i) = true)
         [coffee_item].
Proof.
  split; [vm_compute; reflexivity|].
  apply (parse_items_descriptions Py3_6 coffee_line).
  vm_compute; reflexivity.
Defined.

(** X13.  [parse_items] returns at most one item for each line that
    holds an at sign, and none for the other lines. *)
Theorem parse_items_at_most_one_per_line py text its :
  parse_items py text = Ok its ->
  length its
  <= length (filter (fun line => contains_chr line "@") (split "010" text)).
Proof.
  unfold parse_items.
  rewrite (parse_lines_filter py (Ascii.eqb "@") (conj eq_refl eq_refl)).
  intros H. apply parse_lines_length in H. exact H.
Qed.

Lemma parse_items_at_most_one_per_line_witness :
  parse_items Py3_6 (lit "Deli" ++ nl :: coffee_line) = Ok [coffee_item] /\
  length [coffee_item]
  <= length (filter (fun line => contains_chr line "@")
                    (split "010" (lit "Deli" ++ nl :: coffee_line))).
Proof.
  split; [vm_compute; reflexivity|].
  apply (parse_items_at_most_one_per_line Py3_6
           (lit "Deli" ++ nl :: coffee_line)).
  vm_compute; reflexivity.
Defined.

(** X14.  [parse_payment_method] returns "Unknown" or the capitalised
    form of an entry of its vocabulary, and it returns "Unknown" exactly
    when no entry occurs in the lowered text. *)
Theorem parse_payment_method_range text :
  In (parse_payment_method text) (lit "Unknown" :: map capitalize methods) /\
  (parse_payment_method text = lit "Unknown" <->
   forall m, In m methods -> ~ occurs_in m (lower text)).
Proof.
  unfold parse_payment_method. split; [apply find_method_in|]. split.
  - apply find_method_unknown. repeat constructor; discriminate.
  - apply find_method_none.
Qed.

(** X15.  Before Python 3.11, when the recognised text holds no digit,
    [process_receipt] returns either the error record with
    [AttributeError] (raised by [parse_vendor]) or the record of the [try]
    block with the current date, total 0.0, no items and confidence
    0.85. *)
Theorem process_receipt_text_without_digit :
  forall (Image : Type) (cv2_pipeline : str -> Image + str)
         (image_to_string : Image -> str + str) (today : str)
         (py : python) (image_path : str) (image : Image) (text : str),
  inline_flag_error py = false ->
  cv2_pipeline image_path = inl image ->
  image_to_string image = inl text ->
  absent isdigit text ->
  process_receipt cv2_pipeline image_to_string today py image_path
  = Ok (error_record today AttributeError)
  \/
  exists v,
    parse_vendor py text = Ok v /\
    process_receipt cv2_pipeline image_to_string today py image_path
    = Ok {| error := None; vendor := v; date := today; total := 0.0%Q;
            payment_method := parse_payment_method text;
            currency := lit "USD"; raw_text := text;
            confidence := 0.85%Q; items := [] |}.
Proof.
  intros Image cv2_pipeline image_to_string today py image_path image text
         Hpy E1 E2 Ht.
  unfold process_receipt, process_body, preprocess_image, extract_text.
  rewrite E1. cbn [bind]. rewrite E2. cbn [bind].
  destruct (parse_vendor py text) as [v|e] eqn:E3; cbn [bind].
  - right. exists v. split; [reflexivity|].
    rewrite (parse_date_loop_absent py text isdigit _
               date_patterns_need_digit Ht : parse_date py text = Ok None).
    cbn [bind].
    rewrite (parse_total_absent py text isdigit Hpy
               (conj eq_refl eq_refl) (conj eq_refl eq_refl) Ht).
    cbn [bind].
    rewrite (parse_items_absent py text isdigit (conj eq_refl eq_refl) Ht).
    reflexivity.
  - left. destruct (parse_vendor_raises_cases _ _ _ E3) as [-> _].
    reflexivity.
Qed.

Lemma process_receipt_text_without_digit_witness :
  inline_flag_error Py3_6 = false /\
  reads (lit "receipt.png") = inl tt /\
  recognises (lit "Corner Deli") tt = inl (lit "Corner Deli") /\
  absent isdigit (lit "Corner Deli") /\
  (process_receipt reads (recognises (lit "Corner Deli")) (lit "2026-01-31")
     Py3_6 (lit "receipt.png")
   = Ok (error_record (lit "2026-01-31") AttributeError)
   \/
   exists v,
     parse_vendor Py3_6 (lit "Corner Deli") = Ok v /\
     process_receipt reads (recognises (lit "Corner Deli")) (lit "2026-01-31")
       Py3_6 (lit "receipt.png")
     = Ok {| error := None; vendor := v; date := lit "2026-01-31";
             total := 0.0%Q;
             payment_method := parse_payment_method (lit "Corner Deli");
             currency := lit "USD"; raw_text := lit "Corner Deli";
             confidence := 0.85%Q; items := [] |}).
Proof.
  split; [reflexivity|]. split; [reflexivity|]. split; [reflexivity|].
  split; [reflexivity|].
  apply (process_receipt_text_without_digit unit reads
           (recognises (lit "Corner Deli")) (lit "2026-01-31") Py3_6
           (lit "receipt.png") tt (lit "Corner Deli")); reflexivity.
Defined.

End Further.

Section RaiseCases.
Import Py Re Datetime ReceiptProcessor.

Lemma int_raises py s e : int py s = Raise e -> e = ValueError s.
Proof.
  unfold int.
  destruct (split_sign (num_strip s)) as [neg body].
  destruct (_ || _)%bool; [now intros [= <-]|].
  destruct (int_max_str_digits py) as [n|]; [|discriminate].
  destruct (n <? length body); [now intros [= <-]|discriminate].
Qed.

Lemma parse_match_raises s e :
  parse_match s = Raise e ->
  e = ValueError s \/ e = UnboundLocalError (lit "parsed").
Proof.
  unfold parse_match.
  destruct (contains_chr s "/").
  - destruct (strptime s fmt_m_d_Y_slash) as [dt|e'] eqn:E; cbn [bind];
      [discriminate|].
    intros [= <-]. left. exact (strptime_raises _ _ _ E).
  - destruct (contains_chr s "-" && _).
    + destruct (strptime s fmt_Y_m_d_dash) as [dt|e'] eqn:E; cbn [bind];
        [discriminate|].
      intros [= <-]. left. exact (strptime_raises _ _ _ E).
    + destruct (try_formats s _) as [dt|]; cbn [bind]; [discriminate|].
      intros [= <-]. now right.
Qed.

Lemma parse_date_loop_raises py text e : forall patterns,
  Forall (fun p => later_flag p = false) patterns ->
  parse_date_loop py patterns text = Raise e ->
  e = UnboundLocalError (lit "parsed") /\
  exists pattern m,
    In pattern patterns /\
    re_search py IGNORECASE pattern text = Ok (Some m) /\
    parse_match (m_group0 m) = Raise e.
Proof.
  induction 1 as [|p more Hl _ IH]; intros H; [discriminate|].
  cbn [parse_date_loop] in H.
  destruct (re_search_ok py IGNORECASE p text Hl) as (o & Ho).
  rewrite Ho in H. cbn [bind] in H.
  assert (N : parse_date_loop py more text = Raise e ->
              e = UnboundLocalError (lit "parsed") /\
              exists pattern m,
                In pattern (p :: more) /\
                re_search py IGNORECASE pattern text = Ok (Some m) /\
                parse_match (m_group0 m) = Raise e).
  { intros H'. destruct (IH H') as (E & p' & m' & Hin & H1 & H2).
    split; [exact E|]. exists p', m'. split; [now right|auto]. }
  destruct o as [m|]; [|auto].
  destruct (parse_match (m_group0 m)) as [d|e'] eqn:Hp;
    cbn [bind except_ValueError] in H; [discriminate|].
  destruct (parse_match_raises _ _ Hp) as [->| ->].
  - auto.
  - injection H as <-. split; [reflexivity|].
    exists p, m. split; [now left|auto].
Qed.

Lemma date_patterns_flags :
  Forall (fun p => later_flag p = false) date_patterns.
Proof. repeat constructor. Qed.

Lemma parse_line_raises py line e :
  parse_line py line = Raise e -> exists s, e = ValueError s.
Proof.
  unfold parse_line.
  destruct (re_search_ok py no_flags item_pattern line eq_refl) as (o & Ho).
  rewrite Ho. cbn [bind]. destruct o as [m|]; [|discriminate].
  assert (G : forall g, In g [0; 1; 2; 3] ->
                        exists w, group_str m (S g) = Ok w).
  { intros g Hg. unfold group_str.
    assert (Hs : group m (S g) <> None).
    { apply (re_search_sets_group _ _ _ _ _ _ Ho).
      destruct Hg as [<-|[<-|[<-|[<-|[]]]]]; reflexivity. }
    destruct (group m (S g)) as [w|]; [eauto|contradiction]. }
  destruct (G 0) as (g1 & ->); [simpl; auto|].
  destruct (G 1) as (g2 & ->); [simpl; auto|].
  destruct (G 2) as (g3 & ->); [simpl; auto|].
  destruct (G 3) as (g4 & ->); [simpl; auto|].
  cbn [bind].
  destruct (int py g2) as [qty|e'] eqn:Hq; cbn [bind].
  2:{ intros [= <-]. apply int_raises in Hq. eauto. }
  destruct (price g3) as [up|e'] eqn:Hu; cbn [bind].
  2:{ intros [= <-]. apply float_raises in Hu. eauto. }
  destruct (price g4) as [tp|e'] eqn:Ht; cbn [bind]; [discriminate|].
  intros [= <-]. apply float_raises in Ht. eauto.
Qed.

Lemma parse_lines_raises py e : forall lines acc,
  parse_lines py lines acc = Raise e ->
  exists line, In line lines /\ parse_line py line = Raise e.
Proof.
  induction lines as [|l more IH]; intros acc H; [discriminate|].
  cbn [parse_lines] in H.
  destruct (parse_line py l) as [[i|]|e'] eqn:Hl; cbn [bind] in H.
  - destruct (IH _ H) as (l' & Hin & E). exists l'. split; [now right|exact E].
  - destruct (IH _ H) as (l' & Hin & E). exists l'. split; [now right|exact E].
  - injection H as <-. exists l. split; [now left|exact Hl].
Qed.

Lemma parse_total_raises_cases py text e :
  parse_total py text = Raise e ->
  inline_flag_error py = true /\
  e = ReError (lit "global flags not at the start of the expression").
Proof.
  intros H. destruct (inline_flag_error py) eqn:Hpy.
  - destruct py; try discriminate.
    rewrite parse_total_raises_from_3_11 in H. injection H as <-. auto.
  - destruct (parse_total_returns_before_3_11 py text Hpy) as (a & Ha).
    rewrite Ha in H. discriminate.
Qed.

Lemma parse_vendor_long py text v :
  parse_vendor py text = Ok v -> 2 < length v.
Proof.
  unfold parse_vendor. intros H.
  destruct (parse_vendor_loop py vendor_patterns text) as [[w|]|e] eqn:Hl;
    cbn [bind] in H; [| |discriminate]; apply Ok_inj in H; subst v.
  - now destruct (parse_vendor_loop_result _ _ _ _ Hl).
  - destruct (first_line_result (firstn 3 (split "010" text)))
      as [->|(l & _ & -> & Hlen)]; [simpl; lia|exact Hlen].
Qed.

Lemma parse_date_calendar py text d :
  parse_date py text = Ok (Some d) ->
  exists dt, calendar_date dt /\ d = strftime_Ymd dt.
Proof.
  intros H. apply parse_date_loop_cases in H.
  destruct H as (p & m & _ & _ & Hp).
  destruct (parse_match_cases _ _ Hp) as (fmt & dt & _ & Hf & ->).
  exists dt. split; [exact (strptime_calendar _ _ _ Hf)|reflexivity].
Qed.

End RaiseCases.

Section FurtherErrors.
Import Py Re Datetime ReceiptProcessor Scenario.

(** X16.  [parse_date] raises nothing but [UnboundLocalError] for the
    variable [parsed], and only when a pattern matches and the body of
    the inner [try] leaves [parsed] unbound for the match; a [ValueError]
    of [strptime] never leaves the function. *)
Theorem parse_date_raises_only_unbound_local_error py text e :
  parse_date py text = Raise e ->
  e = UnboundLocalError (lit "parsed") /\
  exists pattern m,
    In pattern date_patterns /\
    re_search py IGNORECASE pattern text = Ok (Some m) /\
    parse_match (m_group0 m) = Raise (UnboundLocalError (lit "parsed")).
Proof.
  intros H.
  destruct (parse_date_loop_raises _ _ _ _ date_patterns_flags H)
    as (-> & p & m & Hin & Hs & Hp).
  split; [reflexivity|]. exists p, m. auto.
Qed.

Lemma parse_date_raises_only_unbound_local_error_witness :
  parse_date Py3_6 (lit "12-25-24") = Raise (UnboundLocalError (lit "parsed"))
  /\
  (UnboundLocalError (lit "parsed") = UnboundLocalError (lit "parsed") /\
   exists pattern m,
     In pattern date_patterns /\
     re_search Py3_6 IGNORECASE pattern (lit "12-25-24") = Ok (Some m) /\
     parse_match (m_group0 m) = Raise (UnboundLocalError (lit "parsed"))).
Proof.
  split; [vm_compute; reflexivity|].
  apply (parse_date_raises_only_unbound_local_error Py3_6 (lit "12-25-24")).
  vm_compute; reflexivity.
Defined.

(** X17.  [parse_items] raises nothing but [ValueError], the one of [int]
    or [float] on a group of a line the item pattern matches: the four
    groups always take part, so no [AttributeError] arises. *)
Theorem parse_items_raises_only_value_error py text e :
  parse_items py text = Raise e ->
  exists s line,
    e = ValueError s /\
    In line (split "010" text) /\
    parse_line py line = Raise (ValueError s).
Proof.
  unfold parse_items. intros H.
  destruct (parse_lines_raises _ _ _ _ H) as (line & Hin & Hl).
  destruct (parse_line_raises _ _ _ Hl) as (s & ->).
  exists s, line. auto.
Qed.

Lemma parse_items_raises_only_value_error_witness :
  parse_items Py3_6 not_sign_line = Raise (ValueError not_sign_price) /\
  exists s line,
    ValueError not_sign_price = ValueError s /\
    In line (split "010" not_sign_line) /\
    parse_line Py3_6 line = Raise (ValueError s).
Proof.
  split; [vm_compute; reflexivity|].
  apply (parse_items_raises_only_value_error Py3_6 not_sign_line).
  vm_compute; reflexivity.
Defined.

(** X18.  The error of an error record tells the step that failed: a
    [RuntimeError] with the message of the image pipeline or of the OCR
    engine, the [AttributeError] of [parse_vendor], the
    [UnboundLocalError] of [parse_date], the [re.error] of [parse_total]
    (Python 3.11 and later only), or the [ValueError] of [parse_items]. *)
Theorem error_record_tells_the_failed_step :
  forall (Image : Type) (cv2_pipeline : str -> Image + str)
         (image_to_string : Image -> str + str) (today : str)
         (py : python) (image_path : str) (r : Receipt) (e : exn),
  process_receipt cv2_pipeline image_to_string today py image_path = Ok r ->
  error r = Some e ->
  (exists msg,
      cv2_pipeline image_path = inr msg /\
      e = RuntimeError (lit "Image preprocessing failed: " ++ msg))
  \/
  (exists image msg,
      cv2_pipeline image_path = inl image /\
      image_to_string image = inr msg /\
      e = RuntimeError (lit "Text extraction failed: " ++ msg))
  \/
  (exists image text,
      cv2_pipeline image_path = inl image /\
      image_to_string image = inl text /\
      ((e = AttributeError /\ parse_vendor py text = Raise e) \/
       (e = UnboundLocalError (lit "parsed") /\
        parse_date py text = Raise e) \/
       (e = ReError (lit "global flags not at the start of the expression")
        /\ inline_flag_error py = true /\ parse_total py text = Raise e) \/
       (exists s, e = ValueError s /\ parse_items py text = Raise e))).
Proof.
  intros Image cv2_pipeline image_to_string today py image_path r e.
  unfold process_receipt, process_body, preprocess_image, extract_text.
  destruct (cv2_pipeline image_path) as [image|msg];
    cbn [bind except_Exception].
  2:{ intros H. apply Ok_inj in H. subst r. intros [= <-].
      left. eauto. }
  destruct (image_to_string image) as [text|msg] eqn:E2;
    cbn [bind except_Exception].
  2:{ intros H. apply Ok_inj in H. subst r. intros [= <-].
      right. left. eauto. }
  destruct (parse_vendor py text) as [v|e1] eqn:E3;
    cbn [bind except_Exception].
  2:{ intros H. apply Ok_inj in H. subst r. intros [= <-].
      right. right. exists image, text. split; [reflexivity|].
      split; [exact E2|]. left.
      destruct (parse_vendor_raises_cases _ _ _ E3) as [-> _]. auto. }
  destruct (parse_date py text) as [d|e1] eqn:E4;
    cbn [bind except_Exception].
  2:{ intros H. apply Ok_inj in H. subst r. intros [= <-].
      right. right. exists image, text. split; [reflexivity|].
      split; [exact E2|]. right. left.
      destruct (parse_date_loop_raises _ _ _ _ date_patterns_flags E4)
        as [-> _]. auto. }
  destruct (parse_total py text) as [t|e1] eqn:E5;
    cbn [bind except_Exception].
  2:{ intros H. apply Ok_inj in H. subst r. intros [= <-].
      right. right. exists image, text. split; [reflexivity|].
      split; [exact E2|]. right. right. left.
      destruct (parse_total_raises_cases _ _ _ E5) as [Hpy ->]. auto. }
  destruct (parse_items py text) as [its|e1] eqn:E6;
    cbn [bind except_Exception].
  2:{ intros H. apply Ok_inj in H. subst r. intros [= <-].
      right. right. exists image, text. split; [reflexivity|].
      split; [exact E2|]. right. right. right.
      destruct (parse_lines_raises _ _ _ _ E6) as (line & _ & Hl).
      destruct (parse_line_raises _ _ _ Hl) as (s & ->). eauto. }
  intros H. apply Ok_inj in H. subst r. discriminate.
Qed.

Lemma error_record_tells_the_failed_step_witness :
  process_receipt reads (recognises (lit "Acme Inc")) (lit "2026-01-31")
    Py3_6 (lit "receipt.png")
  = Ok (error_record (lit "2026-01-31") AttributeError) /\
  error (error_record (lit "2026-01-31") AttributeError)
  = Some AttributeError /\
  ((exists msg,
       reads (lit "receipt.png") = inr msg /\
       AttributeError
       = RuntimeError (lit "Image preprocessing failed: " ++ msg))
   \/
   (exists image msg,
       reads (lit "receipt.png") = inl image /\
       recognises (lit "Acme Inc") image = inr msg /\
       AttributeError = RuntimeError (lit "Text extraction failed: " ++ msg))
   \/
   (exists image text,
       reads (lit "receipt.png") = inl image /\
       recognises (lit "Acme Inc") image = inl text /\
       ((AttributeError = AttributeError /\
         parse_vendor Py3_6 text = Raise AttributeError) \/
        (AttributeError = UnboundLocalError (lit "parsed") /\
         parse_date Py3_6 text = Raise AttributeError) \/
        (AttributeError
         = ReError (lit "global flags not at the start of the expression")
         /\ inline_flag_error Py3_6 = true /\
         parse_total Py3_6 text = Raise AttributeError) \/
        (exists s, AttributeError = ValueError s /\
                   parse_items Py3_6 text = Raise AttributeError)))).
Proof.
  split; [vm_compute; reflexivity|]. split; [reflexivity|].
  apply (error_record_tells_the_failed_step unit reads
           (recognises (lit "Acme Inc")) (lit "2026-01-31") Py3_6
           (lit "receipt.png")
           (error_record (lit "2026-01-31") AttributeError) AttributeError);
    [vm_compute; reflexivity|reflexivity].
Defined.

(** X19.  Every record [process_receipt] returns has a vendor of more
    than two characters, a date that is the current date or a date of the
    calendar printed by [strftime('%Y-%m-%d')], a payment method that is
    "Unknown" or the capitalised form of an entry of the vocabulary, and
    items that all have a trimmed description, a non-negative quantity
    and prices, and the category "general". *)
Theorem process_receipt_record_invariants :
  forall (Image : Type) (cv2_pipeline : str -> Image + str)
         (image_to_string : Image -> str + str) (today : str)
         (py : python) (image_path : str),
  exists r,
    process_receipt cv2_pipeline image_to_string today py image_path = Ok r /\
    2 < length (vendor r) /\
    (date r = today \/
     exists dt, calendar_date dt /\ date r = strftime_Ymd dt) /\
    In (payment_method r) (lit "Unknown" :: map capitalize methods) /\
    Forall item_ok (items r).
Proof.
  intros Image cv2 ocr today py path.
  destruct (process_receipt_cases Image cv2 ocr today py path)
    as [(image & text & v & d & t & its & _ & _ & Ev & Ed & _ & Ei & E)
       | (e & E)];
    rewrite E; eexists; (split; [reflexivity|]);
    cbn [vendor date payment_method items error_record].
  - split; [exact (parse_vendor_long _ _ _ Ev)|]. split; [|split].
    + destruct d as [[|c s]|]; cbn [or_else]; [now left| |now left].
      right. exact (parse_date_calendar _ _ _ Ed).
    + apply find_method_in.
    + exact (parse_lines_ok _ _ _ _ Ei (Forall_nil _)).
  - split; [simpl; lia|]. split; [now left|]. split; [now left|constructor].
Qed.

End FurtherErrors.

Section BusinessNames.
Import Py Re Datetime ReceiptProcessor Scenario.

Lemma compile_plain py fl r :
  has_flag r = false -> compile py fl r = Ok (fl, r).
Proof.
  unfold compile. intros H.
  destruct r as [|c|r1 r2|r1 r2|lo hi r1|g r1| | |];
    try discriminate; try (cbn in H |- *; rewrite ?H; reflexivity).
  destruct r1; try discriminate; cbn in H |- *; rewrite ?H; reflexivity.
Qed.

Lemma re_search_plain py fl r t m :
  has_flag r = false ->
  re_search py fl r t = Ok (Some m) -> found fl r m.
Proof.
  intros Hr. unfold re_search. rewrite (compile_plain py fl r Hr).
  cbn [bind fst snd]. intros H. apply Ok_inj in H.
  exact (search_from_found _ _ _ _ _ _ H).
Qed.

Lemma drop_while_app_all p : forall w s : str,
  forallb p w = true -> drop_while p (w ++ s) = drop_while p s.
Proof.
  induction w as [|c w IH]; intros s H; [reflexivity|].
  simpl in H |- *. apply andb_true_iff in H. destruct H as [-> H]. auto.
Qed.

Lemma strip_capitalised w1 x w3 :
  forallb isspace w1 = true -> between 65 90 x = true ->
  w3 <> [] -> forallb (between 97 122) w3 = true ->
  strip (w1 ++ x :: w3) = x :: w3.
Proof.
  intros H1 Hx Hne H3. unfold strip, strip_with.
  rewrite (drop_while_app_all _ _ _ H1).
  assert (Sx : isspace x = false).
  { revert Hx. generalize x. intros [[] [] [] [] [] [] [] []];
      vm_compute; congruence. }
  cbn [drop_while]. rewrite Sx.
  destruct (rev w3) as [|c t] eqn:Er.
  { apply (f_equal (@rev ascii)) in Er. rewrite rev_involutive in Er.
    contradiction. }
  assert (Sc : isspace c = false).
  { assert (Hc : between 97 122 c = true).
    { rewrite forallb_forall in H3. apply H3, in_rev. rewrite Er. now left. }
    revert Hc. generalize c. intros [[] [] [] [] [] [] [] []];
      vm_compute; congruence. }
  assert (D : drop_while isspace (rev (x :: w3)) = rev (x :: w3)).
  { cbn [rev]. rewrite Er. cbn [app drop_while]. now rewrite Sc. }
  rewrite D. apply rev_involutive.
Qed.

Lemma plus_chr_shape fl c P a b :
  matches fl (Plus (Chr c)) a b ->
  chars_in fl P (Chr c) = true ->
  exists w, rest a = w ++ rest b /\ w <> [] /\ forallb P w = true.
Proof.
  intros M Hc.
  destruct (matches_consumes fl P _ _ _ M) as (w & E & Hw).
  exists w. split; [exact E|]. split; [|exact (Hw Hc)].
  pose proof (matches_min_len fl _ _ _ M) as L.
  rewrite E, length_app in L. cbn in L.
  destruct w; [simpl in L; lia|discriminate].
Qed.

Lemma business_name_group a b :
  matches MULTILINE (cat [Plus space; upper_az; Plus lower_az]) a b ->
  capitalised_word (strip (consumed a b)).
Proof.
  intros M. change (cat [Plus space; upper_az; Plus lower_az])
    with (Seq (Plus space) (Seq upper_az (Plus lower_az))) in M.
  apply matches_seq_inv in M. destruct M as (s1 & M1 & M).
  apply matches_seq_inv in M. destruct M as (s2 & M2 & M3).
  destruct (plus_chr_shape _ _ isspace _ _ M1 eq_refl) as (w1 & E1 & _ & H1).
  apply matches_chr_inv in M2. destruct M2 as (x & E2 & Hx).
  destruct (plus_chr_shape _ _ (between 97 122) _ _ M3 eq_refl)
    as (w3 & E3 & Hne & H3).
  assert (E : rest a = (w1 ++ x :: w3) ++ rest b).
  { rewrite E1, E2, E3, <- app_assoc. reflexivity. }
  rewrite (consumed_app _ _ _ E), (strip_capitalised _ _ _ H1 Hx Hne H3).
  exists x, w3. auto.
Qed.

Lemma business_name_lang suffixes :
  In (business_name suffixes)
     [business_name ["Inc"; "LLC"; "Corp"; "Ltd"; "Pty"]%string;
      business_name ["Restaurant"; "Cafe"; "Store"; "Market"; "Shop"]%string] ->
  has_flag (business_name suffixes) = false /\
  group_lang MULTILINE 1 (fun w => capitalised_word (strip w))
             (business_name suffixes).
Proof.
  intros [<-|[<-|[]]]; (split; [reflexivity|]);
    unfold group_lang; cbn; constructor;
    (exact business_name_group || constructor).
Qed.

Lemma parse_vendor_loop_none py p more text :
  re_search py MULTILINE p text = Ok None ->
  parse_vendor_loop py (p :: more) text = parse_vendor_loop py more text.
Proof. intros H. cbn [parse_vendor_loop]. now rewrite H. Qed.

Lemma parse_vendor_loop_business py text v : forall patterns,
  Forall (fun p => has_flag p = false /\
                   group_lang MULTILINE 1
                     (fun w => capitalised_word (strip w)) p) patterns ->
  parse_vendor_loop py patterns text = Ok (Some v) ->
  capitalised_word v.
Proof.
  induction 1 as [|p more [Hf Hl] _ IH]; intros H; [discriminate|].
  cbn [parse_vendor_loop] in H.
  destruct (re_search py MULTILINE p text) as [[m|]|e] eqn:Hs;
    cbn [bind] in H; [|auto|discriminate].
  unfold group_str in H.
  destruct (group m 1) as [g|] eqn:Eg; cbn [bind] in H; [|discriminate].
  destruct (2 <? length (strip g)); [|auto].
  apply Ok_inj in H. injection H as <-.
  exact (found_lang _ _ _ _ _ _ (re_search_plain _ _ _ _ _ Hf Hs) Hl Eg).
Qed.

(** X20.  What [parse_vendor] can return: a label word or a greeting of
    its first two patterns, spelled as in the text; through a
    business-name pattern one capitalised word only, never the name with
    its words and suffix (for "Joe Smith Brothers Inc" it is "Brothers");
    otherwise the text of the fallback, the first acceptable line among
    the first three or "Unknown Vendor". *)
Theorem parse_vendor_range py text v :
  parse_vendor py text = Ok v ->
  one_of label_words v \/ one_of greeting_words v \/
  capitalised_word v \/
  v = first_line (firstn 3 (split "010" text)).
Proof.
  intros H.
  destruct (re_search_ok py MULTILINE vendor_label text eq_refl)
    as ([m1|] & H1).
  { destruct (parse_vendor_label _ _ _ H1) as (g & _ & Hg & E).
    rewrite E in H. apply Ok_inj in H. subst g. now left. }
  destruct (re_search_ok py MULTILINE vendor_greeting text eq_refl)
    as ([m2|] & H2).
  { destruct (parse_vendor_greeting _ _ _ H1 H2) as (g & _ & Hg & E).
    rewrite E in H. apply Ok_inj in H. subst g. right. now left. }
  right. right. revert H. unfold parse_vendor, vendor_patterns.
  rewrite (parse_vendor_loop_none _ _ _ _ H1),
          (parse_vendor_loop_none _ _ _ _ H2).
  destruct (parse_vendor_loop py _ text) as [[w|]|e] eqn:Hl; cbn [bind];
    [| |discriminate]; intros H; apply Ok_inj in H; subst v; [left|now right].
  refine (parse_vendor_loop_business _ _ _ _ _ Hl).
  constructor; [apply business_name_lang; simpl; auto|].
  constructor; [apply business_name_lang; simpl; auto|constructor].
Qed.

Lemma parse_vendor_range_witness :
  parse_vendor Py3_6 (lit "Joe Smith Brothers Inc") = Ok (lit "Brothers") /\
  (one_of label_words (lit "Brothers") \/
   one_of greeting_words (lit "Brothers") \/
   capitalised_word (lit "Brothers") \/
   lit "Brothers"
   = first_line (firstn 3 (split "010" (lit "Joe Smith Brothers Inc")))).
Proof.
  split; [vm_compute; reflexivity|].
  apply (parse_vendor_range Py3_6 (lit "Joe Smith Brothers Inc")).
  vm_compute; reflexivity.
Defined.

End BusinessNames.
